(** * Streaming session manager of the chat client

    A shallow embedding of the session handling in [App] (state, effects and
    handlers), of the streaming merge in [handleSendMessage], of the history
    projection handed to [getGeminiChat] and of the persistence of the session
    list in [localStorage], followed by the properties proved about them. *)

From Stdlib Require Import ZArith NArith List Ascii String Lia.
From Stdlib Require Import DecimalString Sorting.Sorted Sorting.Permutation.
From Stdlib Require DecimalPos DecimalZ.
From stdpp Require Import base decidable option list gmap.

Local Open Scope Z_scope.

(** ** JavaScript strings

    A JavaScript string is a sequence of UTF-16 code units; [length], [slice]
    and [+] work on code units. *)

Abbreviation jsstring := (list N).

(** A literal written in ASCII. *)
Definition str (s : string) : jsstring :=
  List.map N_of_ascii (list_ascii_of_string s).

(** [WhiteSpace] and [LineTerminator] code points of ECMAScript, the ones
    [String.prototype.trim] strips. *)
Definition is_white_space (c : N) : bool :=
  existsb (N.eqb c)
    [9; 10; 11; 12; 13; 32; 160; 5760;
     8192; 8193; 8194; 8195; 8196; 8197; 8198; 8199; 8200; 8201; 8202;
     8232; 8233; 8239; 8287; 12288; 65279]%N.

Fixpoint trimStart (s : jsstring) : jsstring :=
  match s with
  | c :: r => if is_white_space c then trimStart r else s
  | [] => []
  end.

Definition trimEnd (s : jsstring) : jsstring := rev (trimStart (rev s)).

(** [s.trim()] *)
Definition trim (s : jsstring) : jsstring := trimEnd (trimStart s).

(** Truthiness of a string: only the empty string is falsy. *)
Definition truthy (s : jsstring) : bool :=
  match s with [] => false | _ :: _ => true end.

(** Truthiness of an optional boolean field ([undefined] is falsy). *)
Definition flag (b : option bool) : bool :=
  match b with Some true => true | _ => false end.

(** [n.toString()] for an integral number (below [1e21], as the readings
    of [Date.now()] are). *)
Definition Number_toString (n : Z) : jsstring :=
  str (NilZero.string_of_int (Z.to_int n)).

(** ** Data model (types.ts) *)

Inductive Role := User | Model.

Global Instance Role_eq_dec : EqDecision Role.
Proof. solve_decision. Defined.

Record GroundingWebSource := {
  uri : jsstring;
  source_title : jsstring
}.

Record GroundingChunk := { web : option GroundingWebSource }.

Record GroundingMetadata := { groundingChunks : list GroundingChunk }.

(** A [Date] holding a valid time value (milliseconds since the epoch): every
    [Date] of the program comes from [new Date()] or from a stored one. *)
Record Date := { getTime : Z }.

(** [Message], with the type of [timestamp] left open: it is a [Date] in
    memory and the text written by [Date.prototype.toJSON] in what
    [JSON.parse] returns.  The field [id] is named [msg_id] here. *)
Record MessageOf (T : Type) := {
  msg_id : jsstring;
  role : Role;
  content : jsstring;
  timestamp : T;
  isStreaming : option bool;
  isError : option bool;
  groundingMetadata : option GroundingMetadata;
  image : option jsstring;
  attachments : option (list jsstring)
}.

Arguments msg_id {T} _.
Arguments role {T} _.
Arguments content {T} _.
Arguments timestamp {T} _.
Arguments isStreaming {T} _.
Arguments isError {T} _.
Arguments groundingMetadata {T} _.
Arguments image {T} _.
Arguments attachments {T} _.

Abbreviation Message := (MessageOf Date).

(** [ChatSession]; [id] and [messages] are named [session_id] and
    [session_messages] here. *)
Record ChatSessionOf (T : Type) := {
  session_id : jsstring;
  title : jsstring;
  session_messages : list (MessageOf T);
  createdAt : Z
}.

Arguments session_id {T} _.
Arguments title {T} _.
Arguments session_messages {T} _.
Arguments createdAt {T} _.

Abbreviation ChatSession := (ChatSessionOf Date).

(** Object spreads [{ ...m, field: v }]. *)
Definition with_content {T} (v : jsstring) (m : MessageOf T) : MessageOf T :=
  {| msg_id := msg_id m; role := role m; content := v;
     timestamp := timestamp m; isStreaming := isStreaming m;
     isError := isError m; groundingMetadata := groundingMetadata m;
     image := image m; attachments := attachments m |}.

Definition with_isStreaming {T} (v : option bool) (m : MessageOf T)
    : MessageOf T :=
  {| msg_id := msg_id m; role := role m; content := content m;
     timestamp := timestamp m; isStreaming := v;
     isError := isError m; groundingMetadata := groundingMetadata m;
     image := image m; attachments := attachments m |}.

Definition with_groundingMetadata {T} (v : option GroundingMetadata)
    (m : MessageOf T) : MessageOf T :=
  {| msg_id := msg_id m; role := role m; content := content m;
     timestamp := timestamp m; isStreaming := isStreaming m;
     isError := isError m; groundingMetadata := v;
     image := image m; attachments := attachments m |}.

Definition with_image {T} (v : option jsstring) (m : MessageOf T)
    : MessageOf T :=
  {| msg_id := msg_id m; role := role m; content := content m;
     timestamp := timestamp m; isStreaming := isStreaming m;
     isError := isError m; groundingMetadata := groundingMetadata m;
     image := v; attachments := attachments m |}.

Definition with_timestamp {T U} (v : U) (m : MessageOf T) : MessageOf U :=
  {| msg_id := msg_id m; role := role m; content := content m;
     timestamp := v; isStreaming := isStreaming m;
     isError := isError m; groundingMetadata := groundingMetadata m;
     image := image m; attachments := attachments m |}.

(** ** Response fragments

    The shape of a [GenerateContentResponse] chunk of the generation client,
    as far as [handleSendMessage] reads it.  [text] is what the client's
    [text] accessor returns for the chunk ([None] for [undefined]). *)

Record InlineData := { mimeType : jsstring; data : jsstring }.

Record Part := {
  part_text : option jsstring;
  inlineData : option InlineData
}.

Record Content := { parts : option (list Part) }.

Record Candidate := {
  candidate_content : option Content;
  candidate_groundingMetadata : option GroundingMetadata
}.

Record Chunk := {
  text : option jsstring;
  candidates : option (list Candidate)
}.

(** [chunk.text || ''] *)
Definition chunkText (c : Chunk) : jsstring :=
  match text c with
  | Some s => if truthy s then s else []
  | None => []
  end.

(** [chunk.candidates?.[0]] *)
Definition first_candidate (c : Chunk) : option Candidate :=
  match candidates c with
  | Some (k :: _) => Some k
  | _ => None
  end.

(** [chunk.candidates?.[0]?.groundingMetadata] *)
Definition chunkGroundingMetadata (c : Chunk) : option GroundingMetadata :=
  match first_candidate c with
  | Some k => candidate_groundingMetadata k
  | None => None
  end.

(** [chunk.candidates?.[0]?.content?.parts] *)
Definition chunkParts (c : Chunk) : option (list Part) :=
  match first_candidate c with
  | Some k => match candidate_content k with
              | Some ct => parts ct
              | None => None
              end
  | None => None
  end.

(** [`data:${mimeType};base64,${data}`] *)
Definition data_uri (d : InlineData) : jsstring :=
  str "data:" ++ mimeType d ++ str ";base64," ++ data d.

(** The loop over [parts]: every part with [inlineData] overwrites
    [chunkImage]. *)
Definition scan_parts (ps : list Part) (chunkImage : option jsstring)
    : option jsstring :=
  fold_left (fun acc p => match inlineData p with
                          | Some d => Some (data_uri d)
                          | None => acc
                          end) ps chunkImage.

Definition chunkImage (c : Chunk) : option jsstring :=
  match chunkParts c with
  | Some ps => scan_parts ps None
  | None => None
  end.

(** The [updatedMessage] built inside the updater of one chunk. *)
Definition updatedMessage (c : Chunk) (m : Message) : Message :=
  let updatedMessage := with_content (content m ++ chunkText c) m in
  let updatedMessage :=
    match chunkGroundingMetadata c with
    | Some g => with_groundingMetadata (Some g) updatedMessage
    | None => updatedMessage
    end in
  match chunkImage c with
  | Some img => if truthy img
                then with_image (Some img) updatedMessage
                else updatedMessage
  | None => updatedMessage
  end.

(** The updater passed to [setMessages] for one chunk. *)
Definition merge_chunk (modelMsgId : jsstring) (c : Chunk)
    (prev : list Message) : list Message :=
  match list_find (fun m : Message => msg_id m = modelMsgId) prev with
  | Some (lastMessageIndex, m) =>
      <[lastMessageIndex := updatedMessage c m]> prev
  | None => prev
  end.

(** The updater of step 5: mark streaming as done. *)
Definition finish_streaming (modelMsgId : jsstring) (prev : list Message)
    : list Message :=
  match list_find (fun m : Message => msg_id m = modelMsgId) prev with
  | Some (lastMessageIndex, m) =>
      <[lastMessageIndex := with_isStreaming (Some false) m]> prev
  | None => prev
  end.

(** ** The generation client (services/geminiService.ts) *)

(** One turn of the history handed to [getGeminiChat]:
    [{ role: string, parts: { text: string }[] }]. *)
Record HistoryPart := { history_text : jsstring }.

Record Turn := {
  turn_role : Role;
  turn_parts : list HistoryPart
}.

Record Config := {
  tools_googleSearch : bool;
  imageConfig : option (jsstring * jsstring)
}.

(** What [ai.chats.create] is called with. *)
Record Chat := {
  chat_model : jsstring;
  chat_history : list Turn;
  chat_config : Config
}.

Definition getGeminiChat (modelId : jsstring) (history : option (list Turn))
    : Chat :=
  {| chat_model := modelId;
     chat_history := default [] history;
     chat_config :=
       {| tools_googleSearch :=
            bool_decide (modelId <> str "gemini-2.5-flash-image");
          imageConfig :=
            if decide (modelId = str "gemini-3-pro-image-preview")
            then Some (str "1:1", str "1K") else None |} |}.

(** The history rebuilt from the message list (the effect on
    [selectedModelId] and [messages]). *)
Definition project_history (messages : list Message) : list Turn :=
  List.map (fun m : Message =>
              {| turn_role := role m;
                 turn_parts := [ {| history_text := content m |} ] |})
           (List.filter (fun m : Message => negb (flag (isError m))) messages).

(** ** Persistence

    The slot of [localStorage] under [STORAGE_KEY] holds a text.  A text is
    kept as what reading it back gives: either the session list that
    [JSON.parse] returns, whose timestamps are the texts written by
    [Date.prototype.toJSON], or a text on which the [try] block of the load
    effect throws.  The ISO-8601 text of a valid [Date] is kept as the
    instant it spells: ECMAScript has [Date.parse(d.toISOString())] equal to
    [d.getTime()]. *)

Inductive JsonTime := IsoString (ms : Z).

Definition Date_toJSON (d : Date) : JsonTime := IsoString (getTime d).

(** [new Date(text)] *)
Definition new_Date (t : JsonTime) : Date :=
  match t with IsoString ms => {| getTime := ms |} end.

Inductive StorageItem :=
  | Unusable
  | Stored (parsedSessions : list (ChatSessionOf JsonTime)).

Definition with_session_messages {T U} (v : list (MessageOf U))
    (s : ChatSessionOf T) : ChatSessionOf U :=
  {| session_id := session_id s; title := title s;
     session_messages := v; createdAt := createdAt s |}.

(** [JSON.stringify(sessions)]: every field as it is, fields that are
    [undefined] left out, each [Date] through [toJSON]. *)
Definition JSON_stringify (sessions : list ChatSession) : StorageItem :=
  Stored (List.map (fun session : ChatSession =>
            with_session_messages
              (List.map (fun m : Message =>
                           with_timestamp (Date_toJSON (timestamp m)) m)
                        (session_messages session))
              session) sessions).

(** Rehydrate Dates. *)
Definition hydrate (parsedSessions : list (ChatSessionOf JsonTime))
    : list ChatSession :=
  List.map (fun session : ChatSessionOf JsonTime =>
    with_session_messages
      (List.map (fun m : MessageOf JsonTime =>
                   with_timestamp (new_Date (timestamp m)) m)
                (session_messages session))
      session) parsedSessions.

(** [sort((a, b) => b.createdAt - a.createdAt)]: the sort of an array is
    stable, and a stable sort has one result; insertion from the right is
    one way to compute it. *)
Fixpoint insert_newest_first (a : ChatSession) (l : list ChatSession)
    : list ChatSession :=
  match l with
  | [] => [a]
  | b :: r => if createdAt b - createdAt a <=? 0
              then a :: b :: r
              else b :: insert_newest_first a r
  end.

Fixpoint sort_newest_first (l : list ChatSession) : list ChatSession :=
  match l with
  | [] => []
  | a :: r => insert_newest_first a (sort_newest_first r)
  end.

(** ** State of [App] *)

Record AppState := {
  sessions : list ChatSession;
  currentSessionId : option jsstring;
  messages : list Message;
  isLoading : bool;
  selectedModelId : jsstring;
  chatInstanceRef : option Chat;
  localStorage : option StorageItem
}.

Definition set_sessions (v : list ChatSession) (st : AppState) : AppState :=
  {| sessions := v; currentSessionId := currentSessionId st;
     messages := messages st; isLoading := isLoading st;
     selectedModelId := selectedModelId st;
     chatInstanceRef := chatInstanceRef st;
     localStorage := localStorage st |}.

Definition set_currentSessionId (v : option jsstring) (st : AppState)
    : AppState :=
  {| sessions := sessions st; currentSessionId := v;
     messages := messages st; isLoading := isLoading st;
     selectedModelId := selectedModelId st;
     chatInstanceRef := chatInstanceRef st;
     localStorage := localStorage st |}.

Definition set_messages (v : list Message) (st : AppState) : AppState :=
  {| sessions := sessions st; currentSessionId := currentSessionId st;
     messages := v; isLoading := isLoading st;
     selectedModelId := selectedModelId st;
     chatInstanceRef := chatInstanceRef st;
     localStorage := localStorage st |}.

Definition set_isLoading (v : bool) (st : AppState) : AppState :=
  {| sessions := sessions st; currentSessionId := currentSessionId st;
     messages := messages st; isLoading := v;
     selectedModelId := selectedModelId st;
     chatInstanceRef := chatInstanceRef st;
     localStorage := localStorage st |}.

Definition set_selectedModelId (v : jsstring) (st : AppState) : AppState :=
  {| sessions := sessions st; currentSessionId := currentSessionId st;
     messages := messages st; isLoading := isLoading st;
     selectedModelId := v;
     chatInstanceRef := chatInstanceRef st;
     localStorage := localStorage st |}.

Definition set_chatInstanceRef (v : option Chat) (st : AppState) : AppState :=
  {| sessions := sessions st; currentSessionId := currentSessionId st;
     messages := messages st; isLoading := isLoading st;
     selectedModelId := selectedModelId st;
     chatInstanceRef := v;
     localStorage := localStorage st |}.

Definition set_localStorage (v : option StorageItem) (st : AppState)
    : AppState :=
  {| sessions := sessions st; currentSessionId := currentSessionId st;
     messages := messages st; isLoading := isLoading st;
     selectedModelId := selectedModelId st;
     chatInstanceRef := chatInstanceRef st;
     localStorage := v |}.

(** [!!currentSessionId] *)
Definition active_session (st : AppState) : option jsstring :=
  match currentSessionId st with
  | Some sid => if truthy sid then Some sid else None
  | None => None
  end.

(** ** Effects *)

Definition sentinel_title : jsstring := str "Nova Conversa".

(** The body of the [map] in the effect that syncs the current messages to
    the active session. *)
Definition sync_session (currentSessionId : jsstring)
    (messages : list Message) (session : ChatSession) : ChatSession :=
  if decide (session_id session = currentSessionId) then
    let title :=
      if bool_decide (title session = sentinel_title)
         && (0 <? length messages)%nat
      then
        match list_find (fun m : Message => role m = User) messages with
        | Some (_, firstUserMsg) =>
            take 30 (content firstUserMsg)
            ++ (if (30 <? length (content firstUserMsg))%nat
                then str "..." else [])
        | None => title session
        end
      else title session in
    {| session_id := session_id session; title := title;
       session_messages := messages; createdAt := createdAt session |}
  else session.

Definition sync_effect (st : AppState) : AppState :=
  match active_session st with
  | Some sid =>
      if (0 <? length (messages st))%nat
      then set_sessions (List.map (sync_session sid (messages st))
                                  (sessions st)) st
      else st
  | None => st
  end.

(** Save sessions to local storage whenever they change. *)
Definition save_effect (st : AppState) : AppState :=
  if (0 <? length (sessions st))%nat
  then set_localStorage (Some (JSON_stringify (sessions st))) st
  else st.

(** Re-initialize chat when model or messages change. *)
Definition chat_effect (st : AppState) : AppState :=
  set_chatInstanceRef
    (Some (getGeminiChat (selectedModelId st)
                         (Some (project_history (messages st))))) st.

(** The state once the effects that follow a state update have run: the
    sync effect sets [sessions], after which the save effect writes them. *)
Definition effects (st : AppState) : AppState :=
  chat_effect (save_effect (sync_effect st)).

(** ** Handlers *)

Definition startNewChat (st : AppState) : AppState :=
  effects
    (set_currentSessionId None
      (set_messages []
        (set_chatInstanceRef
           (Some (getGeminiChat (selectedModelId st) None)) st))).

Definition handleSelectSession (session : ChatSession) (st : AppState)
    : AppState :=
  if isLoading st then st
  else effects
         (set_messages (session_messages session)
           (set_currentSessionId (Some (session_id session)) st)).

Definition handleDeleteSession (sessionId : jsstring) (st : AppState)
    : AppState :=
  let newSessions :=
    List.filter (fun s : ChatSession =>
                   negb (bool_decide (session_id s = sessionId)))
                (sessions st) in
  let st1 :=
    set_localStorage (Some (JSON_stringify newSessions))
      (set_sessions newSessions st) in
  if decide (currentSessionId st = Some sessionId)
  then startNewChat st1
  else effects st1.

(** The model selector of the header. *)
Definition selectModel (modelId : jsstring) (st : AppState) : AppState :=
  effects (set_selectedModelId modelId st).

(** The readings of the clock taken by one call of [handleSendMessage] up to
    its first [await], in the order of the calls of [Date.now()] and
    [new Date()]. *)
Record SendClock := {
  now_session_id : Z;
  now_createdAt : Z;
  now_user_id : Z;
  date_user : Date;
  now_model_id : Z;
  date_model : Date
}.

(** The readings taken in the [catch] block. *)
Record ErrorClock := {
  now_error_id : Z;
  date_error : Date
}.

(** The guard at the head of [handleSendMessage]. *)
Definition send_rejected (content : jsstring) (attachments : list jsstring)
    (st : AppState) : bool :=
  (negb (truthy (trim content)) && (length attachments =? 0)%nat)
  || isLoading st.

Definition error_notice : jsstring :=
  str "Desculpe, ocorreu um erro ao processar sua solicita"
  ++ [231; 227]%N
  ++ str "o. Por favor, tente novamente.".

(** The messages built by [handleSendMessage]. *)
Definition userMsg (clk : SendClock) (content : jsstring)
    (attachments : list jsstring) : Message :=
  {| msg_id := Number_toString (now_user_id clk);
     role := User;
     content := trim content;
     timestamp := date_user clk;
     isStreaming := None;
     isError := None;
     groundingMetadata := None;
     image := None;
     attachments := Some attachments |}.

Definition modelMsgId (clk : SendClock) : jsstring :=
  Number_toString (now_model_id clk + 1).

Definition modelMsg (clk : SendClock) : Message :=
  {| msg_id := modelMsgId clk;
     role := Model;
     content := [];
     timestamp := date_model clk;
     isStreaming := Some true;
     isError := None;
     groundingMetadata := None;
     image := None;
     attachments := None |}.

Definition errorMsg (clk : ErrorClock) : Message :=
  {| msg_id := Number_toString (now_error_id clk);
     role := Model;
     content := error_notice;
     timestamp := date_error clk;
     isStreaming := None;
     isError := Some true;
     groundingMetadata := None;
     image := None;
     attachments := None |}.

(** [handleSendMessage] up to [await sendMessageStream(...)]: the state it
    leaves and, when the send went in flight, its [modelMsgId]. *)
Definition send_begin (clk : SendClock) (content : jsstring)
    (attachments : list jsstring) (st : AppState)
    : AppState * option jsstring :=
  if send_rejected content attachments st then (st, None)
  else
    let st1 :=
      match active_session st with
      | Some _ => st
      | None =>
          let activeSessionId := Number_toString (now_session_id clk) in
          let newSession : ChatSession :=
            {| session_id := activeSessionId;
               title := sentinel_title;
               session_messages := [];
               createdAt := now_createdAt clk |} in
          set_chatInstanceRef
            (match chatInstanceRef st with
             | Some chat => Some chat
             | None => Some (getGeminiChat (selectedModelId st) None)
             end)
            (set_currentSessionId (Some activeSessionId)
              (set_sessions (newSession :: sessions st) st))
      end in
    match chatInstanceRef st1 with
    | None => (st1, None)
    | Some _ =>
        (effects
           (set_messages
              ((messages st1 ++ [userMsg clk content attachments])
               ++ [modelMsg clk])
              (set_isLoading true st1)),
         Some (modelMsgId clk))
    end.

(** One turn of the [for await] loop. *)
Definition send_chunk (modelMsgId : jsstring) (chunk : Chunk) (st : AppState)
    : AppState :=
  effects (set_messages (merge_chunk modelMsgId chunk (messages st)) st).

(** The stream is exhausted: step 5, then [finally]. *)
Definition send_done (modelMsgId : jsstring) (st : AppState) : AppState :=
  effects
    (set_isLoading false
      (set_messages (finish_streaming modelMsgId (messages st)) st)).

(** The [catch] block, then [finally]. *)
Definition send_failed (clk : ErrorClock) (st : AppState) : AppState :=
  effects
    (set_isLoading false (set_messages (messages st ++ [errorMsg clk]) st)).

(** How the fragment sequence of one send ends. *)
Inductive StreamEnd :=
  | Exhausted
  | Raised (clk : ErrorClock).

(** A whole call of [handleSendMessage] with nothing else in between: the
    fragments delivered, in order, and the way the sequence ends.  A failure
    of [sendMessageStream] itself is [Raised] after no fragment. *)
Definition handleSendMessage (clk : SendClock) (content : jsstring)
    (attachments : list jsstring) (chunks : list Chunk) (ending : StreamEnd)
    (st : AppState) : AppState :=
  match send_begin clk content attachments st with
  | (st1, Some modelMsgId) =>
      let st2 := fold_left (fun s c => send_chunk modelMsgId c s) chunks st1 in
      match ending with
      | Exhausted => send_done modelMsgId st2
      | Raised eclk => send_failed eclk st2
      end
  | (st1, None) => st1
  end.

(** ** The application as a transition system

    The calls of the handlers and the resumptions of the one running
    [handleSendMessage], in any order.  [pending] is the [modelMsgId] held by
    the running call. *)

Record World := {
  app_state : AppState;
  pending : option jsstring
}.

Inductive Event :=
  | Send (clk : SendClock) (content : jsstring) (attachments : list jsstring)
  | Fragment (chunk : Chunk)
  | StreamExhausted
  | StreamRaised (clk : ErrorClock)
  | SelectSession (session : ChatSession)
  | NewChat
  | DeleteSession (sessionId : jsstring)
  | SelectModel (modelId : jsstring).

Definition step (w : World) (e : Event) : World :=
  match e with
  | Send clk content attachments =>
      let '(st, r) := send_begin clk content attachments (app_state w) in
      {| app_state := st;
         pending := match r with Some i => Some i | None => pending w end |}
  | Fragment chunk =>
      match pending w with
      | Some i =>
          {| app_state := send_chunk i chunk (app_state w);
             pending := Some i |}
      | None => w
      end
  | StreamExhausted =>
      match pending w with
      | Some i =>
          {| app_state := send_done i (app_state w); pending := None |}
      | None => w
      end
  | StreamRaised clk =>
      match pending w with
      | Some _ =>
          {| app_state := send_failed clk (app_state w); pending := None |}
      | None => w
      end
  | SelectSession session =>
      {| app_state := handleSelectSession session (app_state w);
         pending := pending w |}
  | NewChat =>
      {| app_state := startNewChat (app_state w); pending := pending w |}
  | DeleteSession sessionId =>
      {| app_state := handleDeleteSession sessionId (app_state w);
         pending := pending w |}
  | SelectModel modelId =>
      {| app_state := selectModel modelId (app_state w); pending := pending w |}
  end.

Definition run (w : World) (es : list Event) : World := fold_left step es w.

(** The state before the first render, over what the storage holds. *)
Definition initial_state (slot : option StorageItem) : AppState :=
  {| sessions := [];
     currentSessionId := None;
     messages := [];
     isLoading := false;
     selectedModelId := str "gemini-2.5-flash";
     chatInstanceRef := None;
     localStorage := slot |}.

(** Load history from local storage on mount, then a blank chat. *)
Definition mount (st : AppState) : AppState :=
  let st1 :=
    match localStorage st with
    | Some (Stored parsedSessions) =>
        set_sessions (sort_newest_first (hydrate parsedSessions)) st
    | Some Unusable => st
    | None => st
    end in
  startNewChat st1.

(** A start of the application over a storage slot. *)
Definition start (slot : option StorageItem) : World :=
  {| app_state := mount (initial_state slot); pending := None |}.

(** The number of messages of a list that are streaming. *)
Definition streaming_count {T} (l : list (MessageOf T)) : nat :=
  length (List.filter (fun m => flag (isStreaming m)) l).

(** ** Notions used in the statements *)

(** A message with everything but its role, text and error flag erased. *)
Definition text_record (m : Message) : Message :=
  {| msg_id := []; role := role m; content := content m;
     timestamp := {| getTime := 0 |}; isStreaming := None;
     isError := isError m; groundingMetadata := None;
     image := None; attachments := None |}.

(** The in-flight message after a run of chunks. *)
Definition merged_all (chunks : list Chunk) (m : Message) : Message :=
  fold_left (fun m c => updatedMessage c m) chunks m.

(** A fragment with a text delta and nothing else. *)
Definition text_fragment (d : jsstring) : Chunk :=
  {| text := Some d;
     candidates :=
       Some [ {| candidate_content :=
                   Some {| parts := Some [ {| part_text := Some d;
                                              inlineData := None |} ] |};
                 candidate_groundingMetadata := None |} ] |}.

(** A fragment with inline image payloads and nothing else. *)
Definition image_fragment (ds : list InlineData) : Chunk :=
  {| text := None;
     candidates :=
       Some [ {| candidate_content :=
                   Some {| parts :=
                     Some (List.map (fun d => {| part_text := None;
                                                 inlineData := Some d |}) ds) |};
                 candidate_groundingMetadata := None |} ] |}.

(** Clocks that read [t] at every call. *)
Definition clock_at (t : Z) : SendClock :=
  {| now_session_id := t; now_createdAt := t; now_user_id := t;
     date_user := {| getTime := t |}; now_model_id := t;
     date_model := {| getTime := t |} |}.

Definition error_clock_at (t : Z) : ErrorClock :=
  {| now_error_id := t; date_error := {| getTime := t |} |}.

(** The session list read back by a start of the application over what the
    save effect leaves in the storage. *)
Definition saved_then_loaded (st : AppState) : list ChatSession :=
  sessions (mount (initial_state (localStorage (save_effect st)))).

(** Newest first. *)
Definition newest_first (a b : ChatSession) : Prop :=
  createdAt b <= createdAt a.

(** An empty store over a slot that holds one session, as on every start
    with a history; and a store of two sessions, the older one first. *)
Definition session_at (t : Z) : ChatSession :=
  {| session_id := Number_toString t; title := sentinel_title;
     session_messages := []; createdAt := t |}.

Definition empty_store_over_history : AppState :=
  initial_state (Some (JSON_stringify [session_at 1000])).

Definition oldest_first_store : AppState :=
  set_sessions [session_at 1000; session_at 2000] (initial_state None).

(** Worlds and values used as examples. *)
Definition png_payload : InlineData :=
  {| mimeType := str "image/png"; data := str "iVBORw0KGgo=" |}.

Definition jpeg_payload : InlineData :=
  {| mimeType := str "image/jpeg"; data := str "/9j/4AAQ" |}.

(** A new chat in which ["Hi"] was sent and no fragment has arrived yet. *)
Definition sending_world : World :=
  run (start None) [Send (clock_at 1000) (str "Hi") []].

(** A new chat in which ["Hi"] was answered by ["Hello"]. *)
Definition answered_world : World :=
  run (start None)
      [Send (clock_at 1000) (str "Hi") [];
       Fragment (text_fragment (str "Hello"));
       StreamExhausted].

(** A new session and its first two messages, before the effects run. *)
Definition untitled_state : AppState :=
  set_messages
    [userMsg (clock_at 1000) (str "Explain recursion in simple terms") [];
     modelMsg (clock_at 1000)]
    (set_currentSessionId (Some (Number_toString 1000))
      (set_sessions [session_at 1000] (initial_state None))).

(** ** The payload of a send (services/geminiService.ts) *)

(** [LineTerminator] code points, the ones [.] does not match. *)
Definition is_line_terminator (c : N) : bool :=
  existsb (N.eqb c) [10; 13; 8232; 8233]%N.

(** What follows the prefix [p] in [s], when [s] starts with it. *)
Fixpoint after_prefix (p s : jsstring) : option jsstring :=
  match p, s with
  | [], _ => Some s
  | a :: p', b :: s' => if (a =? b)%N then after_prefix p' s' else None
  | _ :: _, [] => None
  end.

(** The longest prefix without [;], and what follows it. *)
Fixpoint until_semicolon (s : jsstring) : jsstring * jsstring :=
  match s with
  | [] => ([], [])
  | c :: r =>
      if (c =? 59)%N then ([], s)
      else let '(a, b) := until_semicolon r in (c :: a, b)
  end.

(** [base64Str.match(/^data:([^;]+);base64,(.+)$/)], giving the two groups.
    The first group has no [;], so it ends at the first [;] after [data:],
    where [;base64,] has to stand; the second group runs to the end of the
    string and holds no line terminator. *)
Definition match_data_uri (base64Str : jsstring)
    : option (jsstring * jsstring) :=
  match after_prefix (str "data:") base64Str with
  | Some rest =>
      let '(group1, rest1) := until_semicolon rest in
      match after_prefix (str ";base64,") rest1 with
      | Some group2 =>
          if truthy group1 && truthy group2
             && forallb (fun c => negb (is_line_terminator c)) group2
          then Some (group1, group2)
          else None
      | None => None
      end
  | None => None
  end.

(** The argument of [chat.sendMessageStream]: [{ message }] or
    [{ message: parts }]. *)
Inductive MessagePayload :=
  | MessageText (message : jsstring)
  | MessageParts (parts : list Part).

(** The loop over the attachments, pushing to [parts]. *)
Definition push_attachments (attachments : list jsstring) (parts : list Part)
    : list Part :=
  fold_left (fun parts base64Str =>
               match match_data_uri base64Str with
               | Some (group1, group2) =>
                   parts ++ [ {| part_text := None;
                                 inlineData := Some {| mimeType := group1;
                                                       data := group2 |} |} ]
               | None => parts
               end) attachments parts.

Definition messagePayload (message : jsstring) (attachments : list jsstring)
    : MessagePayload :=
  if (length attachments =? 0)%nat then MessageText message
  else
    MessageParts
      (push_attachments attachments
         (if truthy (trim message)
          then [ {| part_text := Some message; inlineData := None |} ]
          else [])).



(** [sendMessageStream], over the [sendMessageStream] of the chat: a failure
    is logged and thrown again. *)
Definition sendMessageStream {S E : Type}
    (chat_sendMessageStream : MessagePayload -> S + E)
    (message : jsstring) (attachments : list jsstring) : S + E :=
  chat_sendMessageStream (messagePayload message attachments).

(** ** Rendering of a message (components/ChatMessage.tsx) *)

(** The loop of [uniqueSources] over the chunks, with [seenUris] and
    [sources]. *)
Definition collect_sources (chunks : list GroundingChunk)
    (seenUris : gset jsstring) (sources : list GroundingWebSource)
    : gset jsstring * list GroundingWebSource :=
  fold_left (fun '(seenUris, sources) chunk =>
               match web chunk with
               | Some w =>
                   if decide (uri w ∈ seenUris) then (seenUris, sources)
                   else ({[ uri w ]} ∪ seenUris, sources ++ [w])
               | None => (seenUris, sources)
               end) chunks (seenUris, sources).

Definition uniqueSources (message : Message) : list GroundingWebSource :=
  match groundingMetadata message with
  | Some metadata => snd (collect_sources (groundingChunks metadata) ∅ [])
  | None => []
  end.

(** [uniqueSources.slice(0, showAllSources ? undefined : 3)] *)
Definition shownSources (showAllSources : bool)
    (uniqueSources : list GroundingWebSource) : list GroundingWebSource :=
  if showAllSources then uniqueSources else take 3 uniqueSources.

(** The number announced by the button that shows the other sources, when
    the button is rendered. *)
Definition moreSourcesButton (showAllSources : bool)
    (uniqueSources : list GroundingWebSource) : option nat :=
  if (3 <? length uniqueSources)%nat && negb showAllSources
  then Some (length uniqueSources - 3)%nat
  else None.

(** Whether the copy button of a message is rendered, and its cursor. *)
Definition copyButtonShown (message : Message) : bool :=
  negb (bool_decide (role message = User))
  && negb (flag (isStreaming message))
  && negb (flag (isError message)).

Definition cursorShown (message : Message) : bool :=
  flag (isStreaming message).

(** ** The input box (components/ChatInput.tsx) *)

Module ChatInput.

Record State := {
  content : jsstring;
  attachments : list jsstring
}.

(** A selected file: its MIME type and what [readAsDataURL] gives, [None]
    when the reader fails. *)
Record File := {
  file_type : jsstring;
  readAsDataURL : option jsstring
}.

(** [file.type.startsWith('image/')] *)
Definition isImage (file : File) : bool :=
  bool_decide (is_Some (after_prefix (str "image/") (file_type file))).

(** The loop of [handleFileSelect] over the files. *)
Definition newAttachments (files : list File) : list jsstring :=
  fold_left (fun newAttachments file =>
               if negb (isImage file) then newAttachments
               else match readAsDataURL file with
                    | Some base64 => newAttachments ++ [base64]
                    | None => newAttachments
                    end) files [].

Definition handleFileSelect (files : list File) (st : State) : State :=
  if (0 <? length files)%nat
  then {| content := content st;
          attachments := attachments st ++ newAttachments files |}
  else st.

(** [prev.filter((_, i) => i !== index)], counting from [i]. *)
Fixpoint filter_other_index {A} (index i : nat) (prev : list A) : list A :=
  match prev with
  | [] => []
  | x :: r =>
      if (i =? index)%nat then filter_other_index index (S i) r
      else x :: filter_other_index index (S i) r
  end.

Definition removeAttachment (index : nat) (st : State) : State :=
  {| content := content st;
     attachments := filter_other_index index 0 (attachments st) |}.

(** [handleSubmit]: the state it leaves and the call of [onSend] it makes. *)
Definition handleSubmit (isLoading : bool) (st : State)
    : State * option (jsstring * list jsstring) :=
  if (negb (truthy (trim (content st)))
      && (length (attachments st) =? 0)%nat) || isLoading
  then (st, None)
  else ({| content := []; attachments := [] |},
        Some (content st, attachments st)).

End ChatInput.

(** ** Further examples *)

Definition source_a : GroundingWebSource :=
  {| uri := str "https://a.example/"; source_title := str "A" |}.

Definition source_a_again : GroundingWebSource :=
  {| uri := str "https://a.example/"; source_title := str "A, again" |}.

Definition source_b : GroundingWebSource :=
  {| uri := str "https://b.example/"; source_title := str "B" |}.

(** A reply grounded on [source_a] twice, with a chunk without web source in
    between, and on [source_b]. *)
Definition grounded_message : Message :=
  with_groundingMetadata
    (Some {| groundingChunks :=
               [ {| web := Some source_a |}; {| web := None |};
                 {| web := Some source_a_again |};
                 {| web := Some source_b |} ] |})
    (modelMsg (clock_at 1000)).

Definition typed_input : ChatInput.State :=
  {| ChatInput.content := str " Hi ";
     ChatInput.attachments := [data_uri png_payload] |}.

Definition png_file : ChatInput.File :=
  {| ChatInput.file_type := str "image/png";
     ChatInput.readAsDataURL := Some (data_uri png_payload) |}.

Definition unreadable_file : ChatInput.File :=
  {| ChatInput.file_type := str "image/jpeg";
     ChatInput.readAsDataURL := None |}.

Definition jpeg_file : ChatInput.File :=
  {| ChatInput.file_type := str "image/jpeg";
     ChatInput.readAsDataURL := Some (data_uri jpeg_payload) |}.

(** A new chat in which ["Hi"] was sent and one fragment has arrived. *)
Definition streaming_events : list Event :=
  [Send (clock_at 1000) (str "Hi") []; Fragment (text_fragment (str "Hel"))].

(** A fragment with grounding metadata and nothing else. *)
Definition grounded_fragment (sources : list GroundingWebSource) : Chunk :=
  {| text := None;
     candidates :=
       Some [ {| candidate_content := None;
                 candidate_groundingMetadata :=
                   Some {| groundingChunks :=
                             (fun w => {| web := Some w |}) <$> sources |} |} ] |}.

(** * Properties *)

(** ** Strings and identifiers *)

Lemma str_inj (s t : string) : str s = str t -> s = t.
Proof.
  unfold str. intros H.
  rewrite <- (string_of_list_ascii_of_string s),
          <- (string_of_list_ascii_of_string t).
  f_equal. revert H.
  generalize (list_ascii_of_string s) (list_ascii_of_string t).
  induction l as [|a l IH]; intros [|b l'] H; simpl in H;
    try discriminate; [reflexivity|].
  injection H as Hab Hl. f_equal; [|by apply IH].
  rewrite <- (ascii_N_embedding a), <- (ascii_N_embedding b).
  by rewrite Hab.
Qed.

Lemma to_int_not_nil (n : Z) :
  Z.to_int n <> Decimal.Pos Decimal.Nil
  /\ Z.to_int n <> Decimal.Neg Decimal.Nil.
Proof.
  destruct n as [|p|p]; simpl; split; try discriminate.
  - intros [= H]. by destruct (DecimalPos.Unsigned.to_uint_nonnil p).
  - intros [= H]. by destruct (DecimalPos.Unsigned.to_uint_nonnil p).
Qed.

(** Distinct numbers print as distinct identifiers. *)
Lemma Number_toString_inj (n n' : Z) :
  Number_toString n = Number_toString n' -> n = n'.
Proof.
  unfold Number_toString. intros H%str_inj.
  apply DecimalZ.to_int_inj.
  destruct (to_int_not_nil n) as [? ?], (to_int_not_nil n') as [? ?].
  assert (Some (Z.to_int n) = Some (Z.to_int n')) as [= ->]; [|done].
  rewrite <- (NilZero.isi (Z.to_int n)), <- (NilZero.isi (Z.to_int n')) by done.
  by rewrite H.
Qed.

Lemma chunkText_delta (c : Chunk) (d : jsstring) :
  text c = Some d -> chunkText c = d.
Proof. unfold chunkText. intros ->. by destruct d. Qed.

Lemma truthy_data_uri (d : InlineData) : truthy (data_uri d) = true.
Proof. reflexivity. Qed.

(** ** Effects leave the working copy alone *)

Lemma effects_messages st : messages (effects st) = messages st.
Proof.
  unfold effects, chat_effect, save_effect, sync_effect.
  destruct (active_session st); repeat case_match; reflexivity.
Qed.

Lemma effects_isLoading st : isLoading (effects st) = isLoading st.
Proof.
  unfold effects, chat_effect, save_effect, sync_effect.
  destruct (active_session st); repeat case_match; reflexivity.
Qed.

Lemma effects_currentSessionId st :
  currentSessionId (effects st) = currentSessionId st.
Proof.
  unfold effects, chat_effect, save_effect, sync_effect.
  destruct (active_session st); repeat case_match; reflexivity.
Qed.

Lemma effects_chatInstanceRef st :
  chatInstanceRef (effects st)
  = Some (getGeminiChat (selectedModelId st)
                        (Some (project_history (messages st)))).
Proof.
  unfold effects, chat_effect, save_effect, sync_effect.
  destruct (active_session st); repeat case_match; reflexivity.
Qed.

(** ** Finding and replacing the in-flight message *)

Section InFlight.
Context (modelMsgId : jsstring).

Local Abbreviation is_target := (fun m : Message => msg_id m = modelMsgId).

Lemma updatedMessage_msg_id c m : msg_id (updatedMessage c m) = msg_id m.
Proof. unfold updatedMessage. repeat case_match; reflexivity. Qed.

Lemma merge_chunk_found c prev i m :
  list_find is_target prev = Some (i, m) ->
  merge_chunk modelMsgId c prev = <[i := updatedMessage c m]> prev.
Proof. unfold merge_chunk. by intros ->. Qed.

Lemma merge_chunk_missing c prev :
  list_find is_target prev = None -> merge_chunk modelMsgId c prev = prev.
Proof. unfold merge_chunk. by intros ->. Qed.

Lemma list_find_replace (prev : list Message) i m m' :
  list_find is_target prev = Some (i, m) ->
  msg_id m' = msg_id m ->
  list_find is_target (<[i := m']> prev) = Some (i, m').
Proof.
  intros (Hi & Hm & Hleast)%list_find_Some Hid.
  apply list_find_Some. split_and!.
  - apply list_lookup_insert_eq. by eapply lookup_lt_Some.
  - simpl in *. congruence.
  - intros j y Hj Hlt. rewrite list_lookup_insert_ne in Hj by lia.
    by eapply Hleast.
Qed.

(** The placeholder appended after a list that does not hold its
    identifier is the message found. *)
Lemma list_find_appended (prev : list Message) (m : Message) :
  (forall x, x ∈ prev -> msg_id x <> modelMsgId) ->
  msg_id m = modelMsgId ->
  list_find is_target (prev ++ [m]) = Some (length prev, m).
Proof.
  intros Hfresh Hid. apply list_find_Some. split_and!.
  - by rewrite lookup_app_r, Nat.sub_diag by lia.
  - done.
  - intros j y Hj Hlt. rewrite lookup_app_l in Hj by done.
    apply Hfresh. by eapply list_elem_of_lookup_2.
Qed.
End InFlight.

(** ** The image of a fragment *)

(** The scan keeps the last inline payload of the part list. *)
Lemma scan_parts_last (ps : list Part) (acc : option jsstring) :
  scan_parts ps acc
  = match last (omap inlineData ps) with
    | Some d => Some (data_uri d)
    | None => acc
    end.
Proof.
  revert acc. induction ps as [|p ps IH] using rev_ind; intros acc.
  - reflexivity.
  - unfold scan_parts in *. rewrite fold_left_app, omap_app. simpl.
    destruct (inlineData p) as [d|] eqn:Hp; simpl.
    + by rewrite last_snoc.
    + by rewrite app_nil_r, IH.
Qed.

Lemma chunkImage_last (c : Chunk) (ps : list Part) :
  chunkParts c = Some ps ->
  chunkImage c = data_uri <$> last (omap inlineData ps).
Proof.
  unfold chunkImage. intros ->. rewrite scan_parts_last.
  by destruct (last _).
Qed.

Lemma updatedMessage_image (c : Chunk) (m : Message) (d : InlineData) :
  chunkImage c = Some (data_uri d) ->
  image (updatedMessage c m) = Some (data_uri d).
Proof.
  unfold updatedMessage. intros ->. by rewrite truthy_data_uri.
Qed.

Lemma updatedMessage_content (c : Chunk) (m : Message) :
  content (updatedMessage c m) = content m ++ chunkText c.
Proof. unfold updatedMessage. repeat case_match; reflexivity. Qed.

Lemma updatedMessage_isStreaming (c : Chunk) (m : Message) :
  isStreaming (updatedMessage c m) = isStreaming m.
Proof. unfold updatedMessage. repeat case_match; reflexivity. Qed.

(** C6. Merging a fragment that has no text and one inline image payload
    leaves the content of the in-flight message as it was and sets its image
    to [data:<mime>;base64,<data>], whatever image it held before; the other
    messages stay as they are. *)
Theorem image_only_fragment_sets_image
    (modelMsgId : jsstring) (prev : list Message) (i : nat) (m : Message)
    (c : Chunk) (ps : list Part) (d : InlineData) :
  list_find (fun x : Message => msg_id x = modelMsgId) prev = Some (i, m) ->
  text c = None ->
  chunkParts c = Some ps ->
  omap inlineData ps = [d] ->
  exists m' : Message,
    merge_chunk modelMsgId c prev = <[i := m']> prev
    /\ merge_chunk modelMsgId c prev !! i = Some m'
    /\ content m' = content m
    /\ image m' = Some (str "data:" ++ mimeType d ++ str ";base64," ++ data d).
Proof.
  intros Hfind Htext Hparts Hinline.
  exists (updatedMessage c m). split_and!.
  - by apply merge_chunk_found.
  - rewrite (merge_chunk_found _ _ _ _ _ Hfind).
    apply list_lookup_insert_eq.
    apply list_find_Some in Hfind as (Hi & _). by eapply lookup_lt_Some.
  - rewrite updatedMessage_content. unfold chunkText. rewrite Htext.
    apply app_nil_r.
  - apply updatedMessage_image.
    by rewrite (chunkImage_last _ _ Hparts), Hinline.
Qed.

(** C10. When the part list of one fragment holds several inline image
    payloads, the in-flight message gets the data URI of the last one, and
    the merge is the one of a fragment with the same text and metadata
    holding that last payload alone. *)
Theorem last_inline_image_wins
    (modelMsgId : jsstring) (prev : list Message) (i : nat) (m : Message)
    (c : Chunk) (ps : list Part) (earlier : list InlineData)
    (d : InlineData) :
  list_find (fun x : Message => msg_id x = modelMsgId) prev = Some (i, m) ->
  chunkParts c = Some ps ->
  omap inlineData ps = earlier ++ [d] ->
  (exists m' : Message,
      merge_chunk modelMsgId c prev !! i = Some m'
      /\ image m' = Some (data_uri d))
  /\ forall c' : Chunk,
       text c' = text c ->
       chunkGroundingMetadata c' = chunkGroundingMetadata c ->
       chunkParts c' = Some [ {| part_text := None; inlineData := Some d |} ] ->
       merge_chunk modelMsgId c' prev = merge_chunk modelMsgId c prev.
Proof.
  intros Hfind Hparts Hinline.
  assert (chunkImage c = Some (data_uri d)) as Himg.
  { by rewrite (chunkImage_last _ _ Hparts), Hinline, last_snoc. }
  split.
  - exists (updatedMessage c m). split.
    + rewrite (merge_chunk_found _ _ _ _ _ Hfind).
      apply list_lookup_insert_eq.
      apply list_find_Some in Hfind as (Hi & _). by eapply lookup_lt_Some.
    + by apply updatedMessage_image.
  - intros c' Htext Hmeta Hparts'.
    rewrite !(merge_chunk_found _ _ _ _ _ Hfind). f_equal.
    unfold updatedMessage, chunkText.
    rewrite Htext, Hmeta, Himg, (chunkImage_last _ _ Hparts'). reflexivity.
Qed.

(** ** Selecting a session during a send *)

(** C7. While a send is in flight, selecting a session changes nothing: the
    state of the application, with its active session id, message list and
    session store, is the one before the call. *)
Theorem select_session_rejected_while_loading
    (session : ChatSession) (w : World) :
  isLoading (app_state w) = true ->
  handleSelectSession session (app_state w) = app_state w
  /\ step w (SelectSession session) = w
  /\ currentSessionId (app_state (step w (SelectSession session)))
     = currentSessionId (app_state w)
  /\ messages (app_state (step w (SelectSession session)))
     = messages (app_state w)
  /\ sessions (app_state (step w (SelectSession session)))
     = sessions (app_state w).
Proof.
  intros Hloading.
  assert (handleSelectSession session (app_state w) = app_state w) as Hsel.
  { unfold handleSelectSession. by rewrite Hloading. }
  assert (step w (SelectSession session) = w) as Hstep.
  { simpl. rewrite Hsel. by destruct w. }
  rewrite Hstep. done.
Qed.

(** ** The projected history *)

(** C8. The history handed to the generation client has one turn for each
    message that is not an error, in the order of the messages; the turn
    holds the role of the message and one part with its text; an error
    message gives no turn; and attachments, images and the other fields have
    no influence on it. *)
Theorem history_projection (msgs : list Message) (st : AppState) :
  project_history msgs
  = flat_map (fun m : Message =>
                if flag (isError m) then []
                else [ {| turn_role := role m;
                          turn_parts := [ {| history_text := content m |} ] |} ])
             msgs
  /\ length (project_history msgs)
     = (length msgs - length (List.filter (fun m : Message => flag (isError m)) msgs))%nat
  /\ project_history (List.map text_record msgs) = project_history msgs
  /\ chat_history <$> chatInstanceRef (effects st)
     = Some (project_history (messages st)).
Proof.
  split_and!.
  - unfold project_history.
    induction msgs as [|m msgs IH]; [done|]. simpl.
    destruct (flag (isError m)); simpl; by rewrite IH.
  - unfold project_history. rewrite length_map.
    induction msgs as [|m msgs IH]; [done|]. simpl.
    destruct (flag (isError m)); simpl.
    + rewrite IH. done.
    + rewrite IH.
      pose proof (List.filter_length_le (fun m : Message => flag (isError m)) msgs).
      lia.
  - unfold project_history.
    induction msgs as [|m msgs IH]; [done|]. simpl.
    destruct (flag (isError m)); simpl; by rewrite IH.
  - by rewrite effects_chatInstanceRef.
Qed.

(** ** A send, step by step *)

Section Send.
Context (clk : SendClock) (content0 : jsstring) (atts : list jsstring).

Local Abbreviation modelMsgId := (modelMsgId clk).
Local Abbreviation userMsg_of := (userMsg clk content0 atts).
Local Abbreviation placeholder_of := (modelMsg clk).

(** A call that passes both early returns goes in flight. *)
Lemma send_begin_in_flight (st : AppState) :
  send_rejected content0 atts st = false ->
  is_Some (chatInstanceRef st) \/ active_session st = None ->
  exists st1,
    send_begin clk content0 atts st = (st1, Some modelMsgId)
    /\ messages st1 = messages st ++ [userMsg_of; placeholder_of]
    /\ isLoading st1 = true.
Proof.
  intros Hguard Hchat. unfold send_begin. rewrite Hguard.
  destruct (active_session st) as [sid|] eqn:Hactive.
  - destruct Hchat as [[chat Hc]|]; [|done]. rewrite Hc.
    eexists. split; [reflexivity|].
    rewrite effects_messages, effects_isLoading. simpl.
    by rewrite <- app_assoc.
  - simpl. destruct (chatInstanceRef st); simpl;
      (eexists; split; [reflexivity|]);
      rewrite effects_messages, effects_isLoading; simpl;
      by rewrite <- app_assoc.
Qed.

Lemma fold_send_chunk_messages (chunks : list Chunk) (st : AppState) :
  messages (fold_left (fun s c => send_chunk modelMsgId c s) chunks st)
  = fold_left (fun l c => merge_chunk modelMsgId c l) chunks (messages st).
Proof.
  revert st. induction chunks as [|c chunks IH]; intros st; [done|].
  simpl. rewrite IH. unfold send_chunk. by rewrite effects_messages.
Qed.

Lemma fold_send_chunk_isLoading (chunks : list Chunk) (st : AppState) :
  isLoading (fold_left (fun s c => send_chunk modelMsgId c s) chunks st)
  = isLoading st.
Proof.
  revert st. induction chunks as [|c chunks IH]; intros st; [done|].
  simpl. rewrite IH. unfold send_chunk. by rewrite effects_isLoading.
Qed.

(** The chunks of a run all land on the message found at the start. *)
Lemma fold_merge_chunk (chunks : list Chunk) (l : list Message) i m :
  list_find (fun x : Message => msg_id x = modelMsgId) l = Some (i, m) ->
  fold_left (fun l c => merge_chunk modelMsgId c l) chunks l
  = <[i := merged_all chunks m]> l.
Proof.
  revert l m. induction chunks as [|c chunks IH]; intros l m Hfind.
  - simpl. symmetry. apply list_insert_id.
    by apply list_find_Some in Hfind as (? & _).
  - simpl. rewrite (merge_chunk_found _ _ _ _ _ Hfind).
    rewrite (IH _ (updatedMessage c m)).
    + by rewrite list_insert_insert_eq.
    + eapply list_find_replace; [exact Hfind|]. apply updatedMessage_msg_id.
Qed.

Lemma merged_all_msg_id chunks m : msg_id (merged_all chunks m) = msg_id m.
Proof.
  revert m. induction chunks as [|c chunks IH]; intros m; [done|].
  unfold merged_all in *. simpl. by rewrite IH, updatedMessage_msg_id.
Qed.

Lemma merged_all_isStreaming chunks m :
  isStreaming (merged_all chunks m) = isStreaming m.
Proof.
  revert m. induction chunks as [|c chunks IH]; intros m; [done|].
  unfold merged_all in *. simpl. by rewrite IH, updatedMessage_isStreaming.
Qed.

Lemma merged_all_role chunks m : role (merged_all chunks m) = role m.
Proof.
  revert m. induction chunks as [|c chunks IH]; intros m; [done|].
  unfold merged_all in *. simpl. rewrite IH.
  unfold updatedMessage. repeat case_match; reflexivity.
Qed.

(** Text deltas accumulate in delivery order. *)
Lemma merged_all_text (chunks : list Chunk) (deltas : list jsstring) m :
  Forall2 (fun c d => text c = Some d) chunks deltas ->
  content (merged_all chunks m) = content m ++ concat deltas.
Proof.
  intros H. revert m. induction H as [|c d chunks deltas Hc _ IH]; intros m.
  - simpl. by rewrite app_nil_r.
  - unfold merged_all in *. simpl. rewrite IH, updatedMessage_content.
    by rewrite (chunkText_delta _ _ Hc), <- app_assoc.
Qed.

Context (st : AppState).
Hypothesis guard : send_rejected content0 atts st = false.
Hypothesis chat_ready : is_Some (chatInstanceRef st) \/ active_session st = None.
Hypothesis fresh :
  forall x : Message, x ∈ messages st -> msg_id x <> modelMsgId.
Hypothesis clock_order : now_user_id clk <= now_model_id clk.

Lemma placeholder_found :
  list_find (fun x : Message => msg_id x = modelMsgId)
            ((messages st ++ [userMsg_of]) ++ [placeholder_of])
  = Some (length (messages st ++ [userMsg_of]), placeholder_of).
Proof.
  apply list_find_appended; [|done].
  intros x [Hx|Hx%list_elem_of_singleton]%elem_of_app; [by apply fresh|].
  subst x. simpl. intros Heq%Number_toString_inj. lia.
Qed.

(** The message list during a send, after the chunks delivered so far. *)
Lemma send_chunks_messages (chunks : list Chunk) :
  exists st1,
    send_begin clk content0 atts st = (st1, Some modelMsgId)
    /\ messages (fold_left (fun s c => send_chunk modelMsgId c s) chunks st1)
       = messages st ++ [userMsg_of; merged_all chunks placeholder_of].
Proof.
  destruct (send_begin_in_flight st guard chat_ready) as (st1 & Hb & Hm & _).
  exists st1. split; [done|].
  rewrite fold_send_chunk_messages, Hm.
  replace (messages st ++ [userMsg_of; placeholder_of])
    with ((messages st ++ [userMsg_of]) ++ [placeholder_of])
    by (by rewrite <- app_assoc).
  rewrite (fold_merge_chunk _ _ _ _ placeholder_found).
  rewrite insert_app_r_alt, Nat.sub_diag by lia. simpl.
  by rewrite <- app_assoc.
Qed.

(** A send whose stream is exhausted. *)
Lemma completed_send_messages (chunks : list Chunk) :
  messages (handleSendMessage clk content0 atts chunks Exhausted st)
  = messages st
    ++ [userMsg_of;
        with_isStreaming (Some false) (merged_all chunks placeholder_of)].
Proof.
  destruct (send_chunks_messages chunks) as (st1 & Hb & Hm).
  unfold handleSendMessage. rewrite Hb.
  unfold send_done. rewrite effects_messages. simpl. rewrite Hm.
  unfold finish_streaming.
  replace (messages st ++ [userMsg_of; merged_all chunks placeholder_of])
    with ((messages st ++ [userMsg_of]) ++ [merged_all chunks placeholder_of])
    by (by rewrite <- app_assoc).
  rewrite (list_find_appended modelMsgId (messages st ++ [userMsg_of])
             (merged_all chunks placeholder_of)).
  - rewrite insert_app_r_alt, Nat.sub_diag by lia. simpl.
    by rewrite <- app_assoc.
  - intros x [Hx|Hx%list_elem_of_singleton]%elem_of_app; [by apply fresh|].
    subst x. simpl. intros Heq%Number_toString_inj. lia.
  - by rewrite merged_all_msg_id.
Qed.

(** A send whose stream raises: what the [catch] block leaves. *)
Lemma failed_send_state (chunks : list Chunk) (eclk : ErrorClock) :
  let st' := handleSendMessage clk content0 atts chunks (Raised eclk) st in
  messages st'
  = messages st
    ++ [userMsg_of; merged_all chunks placeholder_of;
        errorMsg eclk]
  /\ isLoading st' = false.
Proof.
  destruct (send_chunks_messages chunks) as (st1 & Hb & Hm).
  unfold handleSendMessage. rewrite Hb.
  unfold send_failed. rewrite effects_messages, effects_isLoading. simpl.
  rewrite Hm. split; [|done]. by rewrite <- app_assoc.
Qed.
End Send.

(** ** Text deltas *)

Lemma merged_all_text_only (chunks : list Chunk) (m : Message) :
  Forall (fun c => chunkGroundingMetadata c = None /\ chunkImage c = None)
         chunks ->
  groundingMetadata (merged_all chunks m) = groundingMetadata m
  /\ image (merged_all chunks m) = image m.
Proof.
  intros H. revert m. induction H as [|c chunks [Hg Hi] _ IH]; intros m.
  - done.
  - unfold merged_all in *. simpl.
    destruct (IH (updatedMessage c m)) as [-> ->].
    unfold updatedMessage. by rewrite Hg, Hi.
Qed.

(** C3. A send whose fragments carry a text delta each, and no metadata and
    no image, ends with the in-flight message finalized and holding the
    deltas joined in the order of delivery, nothing else having been set on
    it.  The identifier of the placeholder is taken to be new in the list,
    and the clock not to run backwards between the two identifiers of the
    send. *)
Theorem text_deltas_are_concatenated
    (clk : SendClock) (content0 : jsstring) (atts : list jsstring)
    (st : AppState) (chunks : list Chunk) (deltas : list jsstring) :
  send_rejected content0 atts st = false ->
  is_Some (chatInstanceRef st) \/ active_session st = None ->
  (forall x : Message, x ∈ messages st -> msg_id x <> modelMsgId clk) ->
  now_user_id clk <= now_model_id clk ->
  Forall2 (fun c d => text c = Some d
                      /\ chunkGroundingMetadata c = None
                      /\ chunkImage c = None) chunks deltas ->
  exists final : Message,
    messages (handleSendMessage clk content0 atts chunks Exhausted st)
    = messages st ++ [userMsg clk content0 atts; final]
    /\ msg_id final = modelMsgId clk
    /\ role final = Model
    /\ isStreaming final = Some false
    /\ content final = concat deltas
    /\ groundingMetadata final = None
    /\ image final = None.
Proof.
  intros Hguard Hchat Hfresh Hclock Hchunks.
  exists (with_isStreaming (Some false) (merged_all chunks (modelMsg clk))).
  split; [by apply completed_send_messages|]. simpl.
  rewrite merged_all_msg_id, merged_all_role.
  rewrite (merged_all_text chunks deltas).
  - destruct (merged_all_text_only chunks (modelMsg clk)) as [-> ->]; [|done].
    eapply Forall2_Forall_l; [exact Hchunks|].
    apply Forall_forall. tauto.
  - eapply Forall2_impl; [exact Hchunks|]. simpl. tauto.
Qed.

(** ** The user message *)

(** C4, as stated, fails: the user message holds the text without the
    white space around it. *)
Lemma user_message_content_not_verbatim :
  ~ (forall (clk : SendClock) (content0 : jsstring) (atts : list jsstring)
            (st st1 : AppState) (i : jsstring),
        send_begin clk content0 atts st = (st1, Some i) ->
        exists u : Message,
          messages st1 !! length (messages st) = Some u
          /\ role u = User
          /\ content u = content0
          /\ attachments u = Some atts).
Proof.
  intros H.
  destruct (H (clock_at 1000) (str " Hi ") [] (app_state (start None))
              _ _ eq_refl) as (u & Hu & _ & Hcontent & _).
  vm_compute in Hu. injection Hu as <-. discriminate Hcontent.
Qed.

(** C4, amended. A send that passes the early returns appends a user message
    whose content is the given text trimmed and whose attachments are the
    given ones, in their order. *)
Theorem user_message_appended
    (clk : SendClock) (content0 : jsstring) (atts : list jsstring)
    (st : AppState) :
  send_rejected content0 atts st = false ->
  is_Some (chatInstanceRef st) \/ active_session st = None ->
  exists (st1 : AppState) (u p : Message),
    send_begin clk content0 atts st = (st1, Some (msg_id p))
    /\ messages st1 = messages st ++ [u; p]
    /\ role u = User
    /\ content u = trim content0
    /\ attachments u = Some atts.
Proof.
  intros Hguard Hchat.
  destruct (send_begin_in_flight clk content0 atts st Hguard Hchat)
    as (st1 & Hb & Hm & _).
  by exists st1, (userMsg clk content0 atts), (modelMsg clk).
Qed.

(** ** A send that fails *)

(** The placeholder of a failed send is still marked as streaming. *)
Lemma failed_send_placeholder_streaming
    (clk : SendClock) (content0 : jsstring) (atts : list jsstring)
    (st : AppState) (chunks : list Chunk) (eclk : ErrorClock) :
  send_rejected content0 atts st = false ->
  is_Some (chatInstanceRef st) \/ active_session st = None ->
  (forall x : Message, x ∈ messages st -> msg_id x <> modelMsgId clk) ->
  now_user_id clk <= now_model_id clk ->
  exists p : Message,
    messages (handleSendMessage clk content0 atts chunks (Raised eclk) st)
    = messages st ++ [userMsg clk content0 atts; p; errorMsg eclk]
    /\ p = merged_all chunks (modelMsg clk)
    /\ isStreaming p = Some true.
Proof.
  intros Hguard Hchat Hfresh Hclock.
  exists (merged_all chunks (modelMsg clk)). split_and!; [|done|].
  - by apply failed_send_state.
  - by rewrite merged_all_isStreaming.
Qed.

Lemma streaming_count_app {T} (l l' : list (MessageOf T)) :
  streaming_count (l ++ l') = (streaming_count l + streaming_count l')%nat.
Proof. unfold streaming_count. by rewrite List.filter_app, length_app. Qed.

(** X29. A send that completes leaves as many streaming messages as it
    found; one that fails leaves one more. *)
Lemma streaming_count_after_send
    (clk : SendClock) (content0 : jsstring) (atts : list jsstring)
    (st : AppState) (chunks : list Chunk) (eclk : ErrorClock) :
  send_rejected content0 atts st = false ->
  is_Some (chatInstanceRef st) \/ active_session st = None ->
  (forall x : Message, x ∈ messages st -> msg_id x <> modelMsgId clk) ->
  now_user_id clk <= now_model_id clk ->
  streaming_count
    (messages (handleSendMessage clk content0 atts chunks Exhausted st))
  = streaming_count (messages st)
  /\ streaming_count
       (messages (handleSendMessage clk content0 atts chunks (Raised eclk) st))
     = S (streaming_count (messages st)).
Proof.
  intros Hguard Hchat Hfresh Hclock. split.
  - rewrite completed_send_messages by done.
    rewrite streaming_count_app. unfold streaming_count at 2. simpl. lia.
  - destruct (failed_send_state clk content0 atts st Hguard Hchat Hfresh
                Hclock chunks eclk) as [-> _].
    rewrite streaming_count_app. unfold streaming_count at 2. simpl.
    rewrite merged_all_isStreaming. simpl. lia.
Qed.

(** C1, on the code. A send of ["Hi"] in a new chat whose stream raises after
    the fragments ["Hel"] and ["lo"]: the in-flight message holds ["Hello"],
    one error message with the failure notice follows it and the send is no
    longer in flight, but the in-flight message is still marked as
    streaming. *)
Theorem failed_send_after_two_fragments :
  let st' :=
    handleSendMessage (clock_at 1000) (str "Hi") []
      [text_fragment (str "Hel"); text_fragment (str "lo")]
      (Raised (error_clock_at 2000)) (app_state (start None)) in
  exists u p e : Message,
    messages st' = [u; p; e]
    /\ content p = str "Hello"
    /\ isStreaming p = Some true
    /\ isError e = Some true
    /\ content e = error_notice
    /\ streaming_count (messages st') = 1%nat
    /\ isLoading st' = false.
Proof.
  vm_compute. do 3 eexists. split_and!; reflexivity.
Qed.

(** C2, on the code. A send in a new chat whose stream raises, followed by a
    second send: once the second placeholder is appended, two messages of the
    list, and of the stored session, are marked as streaming. *)
Theorem two_streaming_after_failed_send :
  let w :=
    run (start None)
      [Send (clock_at 1000) (str "Hi") [];
       StreamRaised (error_clock_at 2000);
       Send (clock_at 5000) (str "again") []] in
  streaming_count (messages (app_state w)) = 2%nat
  /\ List.map (fun s : ChatSession => streaming_count (session_messages s))
              (sessions (app_state w)) = [2%nat]
  /\ pending w = Some (modelMsgId (clock_at 5000)).
Proof. vm_compute. done. Qed.

(** ** The title of a session *)

Lemma effects_sessions st : sessions (effects st) = sessions (sync_effect st).
Proof.
  unfold effects, chat_effect, save_effect. by case_match.
Qed.

(** C5. When the active session still has the sentinel title and the message
    list has a user message, the effects leave the session with the content
    of the first user message as title, cut to its first 30 code units and
    followed by ["..."] exactly when the content is longer than 30; so a
    content of at most 30 is the title as it is.  A first send of
    ["Explain recursion in simple terms"] gives
    ["Explain recursion in simple te..."], and one of ["Hi"] gives ["Hi"]. *)
Theorem title_from_first_user_message
    (st : AppState) (sid : jsstring) (i j : nat) (session : ChatSession)
    (firstUserMsg : Message) :
  active_session st = Some sid ->
  sessions st !! i = Some session ->
  session_id session = sid ->
  title session = sentinel_title ->
  list_find (fun m : Message => role m = User) (messages st)
  = Some (j, firstUserMsg) ->
  (exists session' : ChatSession,
      sessions (effects st) !! i = Some session'
      /\ title session'
         = take 30 (content firstUserMsg)
           ++ (if decide (30 < length (content firstUserMsg))%nat
               then str "..." else [])
      /\ ((length (content firstUserMsg) <= 30)%nat ->
          title session' = content firstUserMsg))
  /\ title <$> head (sessions (app_state
       (run (start None)
            [Send (clock_at 1000) (str "Explain recursion in simple terms") []])))
     = Some (str "Explain recursion in simple te...")
  /\ title <$> head (sessions (app_state
       (run (start None) [Send (clock_at 1000) (str "Hi") []])))
     = Some (str "Hi").
Proof.
  intros Hactive Hi Hsid Htitle Hfind.
  split; [|split; vm_compute; reflexivity].
  assert (0 < length (messages st))%nat as Hlen.
  { apply list_find_Some in Hfind as (Hj & _).
    apply lookup_lt_Some in Hj. lia. }
  exists (sync_session sid (messages st) session).
  assert (title (sync_session sid (messages st) session)
          = take 30 (content firstUserMsg)
            ++ (if decide (30 < length (content firstUserMsg))%nat
                then str "..." else [])) as Ht.
  { unfold sync_session. rewrite decide_True by done. simpl.
    rewrite bool_decide_eq_true_2 by done.
    apply Nat.ltb_lt in Hlen. rewrite Hlen. simpl. rewrite Hfind.
    destruct (decide (30 < length (content firstUserMsg))%nat) as [Hl|Hl].
    - apply Nat.ltb_lt in Hl. by rewrite Hl.
    - apply Nat.ltb_nlt in Hl. by rewrite Hl. }
  split_and!.
  - rewrite effects_sessions. unfold sync_effect. rewrite Hactive.
    apply Nat.ltb_lt in Hlen. rewrite Hlen. simpl.
    by rewrite list_lookup_fmap, Hi.
  - done.
  - intros Hshort. rewrite Ht, decide_False by lia.
    by rewrite app_nil_r, take_ge by lia.
Qed.

(** ** Saving and loading *)

Lemma hydrate_stringify (l : list ChatSession) :
  exists parsedSessions,
    JSON_stringify l = Stored parsedSessions /\ hydrate parsedSessions = l.
Proof.
  eexists. split; [reflexivity|].
  unfold hydrate. rewrite List.map_map.
  rewrite <- (List.map_id l) at 2. apply List.map_ext.
  intros [sid t msgs c]. unfold with_session_messages. simpl. f_equal.
  rewrite List.map_map. rewrite <- (List.map_id msgs) at 2.
  apply List.map_ext. by intros [? ? ? [?] ? ? ? ? ?].
Qed.

Lemma insert_newest_first_perm a l : Permutation (a :: l) (insert_newest_first a l).
Proof.
  induction l as [|b l IH]; simpl; [done|].
  case_match; [done|]. rewrite <- IH. apply perm_swap.
Qed.

Lemma sort_newest_first_perm l : Permutation l (sort_newest_first l).
Proof.
  induction l as [|a l IH]; simpl; [done|].
  rewrite <- insert_newest_first_perm. by constructor.
Qed.

Lemma insert_newest_first_sorted a l :
  StronglySorted newest_first l ->
  StronglySorted newest_first (insert_newest_first a l).
Proof.
  induction 1 as [|b l Hl IH Hb]; simpl.
  - repeat constructor.
  - destruct (Z.leb_spec (createdAt b - createdAt a) 0) as [Hle|Hgt].
    + constructor; [by constructor|].
      constructor; [unfold newest_first; lia|].
      eapply Forall_impl; [exact Hb|]. unfold newest_first. simpl. lia.
    + constructor; [done|].
      rewrite <- insert_newest_first_perm.
      constructor; [unfold newest_first; lia|done].
Qed.

Lemma sort_newest_first_sorted l : StronglySorted newest_first (sort_newest_first l).
Proof.
  induction l as [|a l IH]; simpl; [constructor|].
  by apply insert_newest_first_sorted.
Qed.

(** A list already newest first is left as it is, sessions of the same
    instant included. *)
Lemma sort_newest_first_id l :
  StronglySorted newest_first l -> sort_newest_first l = l.
Proof.
  induction 1 as [|a l Hl IH Ha]; simpl; [done|]. rewrite IH.
  destruct Ha as [|b l Hab _]; simpl; [done|].
  unfold newest_first in Hab.
  destruct (Z.leb_spec (createdAt b - createdAt a) 0); [done|lia].
Qed.

Lemma startNewChat_sessions st : sessions (startNewChat st) = sessions st.
Proof. unfold startNewChat. by rewrite effects_sessions. Qed.

Lemma mount_sessions st :
  sessions (mount st)
  = match localStorage st with
    | Some (Stored parsedSessions) => sort_newest_first (hydrate parsedSessions)
    | _ => sessions st
    end.
Proof.
  unfold mount. rewrite startNewChat_sessions.
  by destruct (localStorage st) as [[|]|].
Qed.

(** C9, as stated, fails: an empty collection is not written, and loading
    sorts. *)
Lemma save_then_load_not_identity :
  saved_then_loaded empty_store_over_history
    <> sessions empty_store_over_history
  /\ saved_then_loaded oldest_first_store <> sessions oldest_first_store.
Proof. split; vm_compute; discriminate. Qed.

(** C9, amended. For a collection that is not empty, saving and then loading
    gives the collection sorted newest first, a stable rearrangement of it
    in which every session has all its fields, [createdAt] and message
    timestamps included; so a collection that is newest first comes back
    equal. *)
Theorem save_then_load (st : AppState) :
  sessions st <> [] ->
  saved_then_loaded st = sort_newest_first (sessions st)
  /\ Permutation (sessions st) (saved_then_loaded st)
  /\ StronglySorted newest_first (saved_then_loaded st)
  /\ (StronglySorted newest_first (sessions st) ->
      saved_then_loaded st = sessions st).
Proof.
  intros Hne.
  assert (saved_then_loaded st = sort_newest_first (sessions st)) as Heq.
  { unfold saved_then_loaded. rewrite mount_sessions.
    unfold initial_state, save_effect. cbn [localStorage].
    destruct (sessions st) as [|s l] eqn:Hs; [done|].
    cbn [length Nat.ltb Nat.leb set_localStorage localStorage].
    destruct (hydrate_stringify (s :: l)) as (p & -> & ->). done. }
  rewrite Heq. split_and!.
  - done.
  - apply sort_newest_first_perm.
  - apply sort_newest_first_sorted.
  - apply sort_newest_first_id.
Qed.

(** ** The effects settle, and one send runs at a time *)

Lemma sync_session_idempotent sid msgs (s : ChatSession) :
  sync_session sid msgs (sync_session sid msgs s) = sync_session sid msgs s.
Proof.
  unfold sync_session.
  destruct (decide (session_id s = sid)) as [Hs|Hs]; simpl.
  - rewrite decide_True by done. f_equal.
    destruct (bool_decide (title s = sentinel_title)) eqn:Ht;
      destruct (0 <? length msgs)%nat eqn:Hl; simpl;
      rewrite ?Ht, ?Hl; simpl; try done;
      rewrite ?andb_false_r; try done.
    destruct (list_find (fun m : Message => role m = User) msgs)
      as [[j m]|] eqn:Hf.
    + by repeat case_match.
    + by rewrite Ht.
  - by rewrite decide_False.
Qed.

(** Running the effects on a state on which they have run changes nothing:
    an effect whose dependencies did not change may be taken to run. *)
Lemma effects_idempotent st : effects (effects st) = effects st.
Proof.
  destruct st as [ss cur msgs ld model chat slot].
  unfold effects, chat_effect, save_effect, sync_effect, active_session.
  destruct cur as [[|c sid]|], msgs as [|m msgs], ss as [|s ss];
    cbn -[sync_session JSON_stringify project_history getGeminiChat];
    try reflexivity.
  rewrite sync_session_idempotent, List.map_map.
  by rewrite (List.map_ext _ _ (sync_session_idempotent (c :: sid) (m :: msgs))).
Qed.

Lemma startNewChat_isLoading st : isLoading (startNewChat st) = isLoading st.
Proof. unfold startNewChat. by rewrite effects_isLoading. Qed.

Lemma handleSelectSession_isLoading s st :
  isLoading (handleSelectSession s st) = isLoading st.
Proof.
  unfold handleSelectSession. destruct (isLoading st) eqn:H; [done|].
  by rewrite effects_isLoading.
Qed.

Lemma handleDeleteSession_isLoading i st :
  isLoading (handleDeleteSession i st) = isLoading st.
Proof.
  unfold handleDeleteSession. case_match.
  - by rewrite startNewChat_isLoading.
  - by rewrite effects_isLoading.
Qed.

Lemma send_begin_cases clk content0 atts st :
  (send_begin clk content0 atts st = (st, None))
  \/ (isLoading st = false
      /\ exists st1, send_begin clk content0 atts st = (st1, Some (modelMsgId clk))
                     /\ isLoading st1 = true).
Proof.
  destruct (send_rejected content0 atts st) eqn:Hr.
  - left. unfold send_begin. by rewrite Hr.
  - assert (isLoading st = false) as Hl.
    { unfold send_rejected in Hr. by apply orb_false_elim in Hr as [_ ?]. }
    destruct (active_session st) eqn:Ha.
    + destruct (chatInstanceRef st) eqn:Hc.
      * right. split; [done|].
        destruct (send_begin_in_flight clk content0 atts st Hr)
          as (st1 & Hb & _ & Hl1); [left; by eexists|]. by exists st1.
      * left. unfold send_begin. by rewrite Hr, Ha, Hc.
    + right. split; [done|].
      destruct (send_begin_in_flight clk content0 atts st Hr)
        as (st1 & Hb & _ & Hl1); [by right|]. by exists st1.
Qed.

(** While a call of [handleSendMessage] is running, [isLoading] is set; so
    the guard turns every other call away and one send runs at a time. *)
Lemma step_pending_is_loading (w : World) (e : Event) :
  (is_Some (pending w) -> isLoading (app_state w) = true) ->
  is_Some (pending (step w e)) -> isLoading (app_state (step w e)) = true.
Proof.
  intros Hw. destruct e as [clk c a|c| |clk|s| |i|mo]; cbn [step].
  - destruct (send_begin_cases clk c a (app_state w))
      as [->|(Hl & st1 & -> & Hl1)]; cbn [app_state pending]; done.
  - destruct (pending w) eqn:Hp; cbn [app_state pending]; [|by rewrite Hp].
    intros _. unfold send_chunk. rewrite effects_isLoading.
    by apply Hw.
  - destruct (pending w) eqn:Hp; cbn [app_state pending];
      [by intros [? [=]]|by rewrite Hp].
  - destruct (pending w) eqn:Hp; cbn [app_state pending];
      [by intros [? [=]]|by rewrite Hp].
  - cbn [app_state pending]. by rewrite handleSelectSession_isLoading.
  - cbn [app_state pending]. by rewrite startNewChat_isLoading.
  - cbn [app_state pending]. by rewrite handleDeleteSession_isLoading.
  - cbn [app_state pending]. unfold selectModel. by rewrite effects_isLoading.
Qed.

Lemma run_pending_is_loading (es : list Event) (w : World) :
  (is_Some (pending w) -> isLoading (app_state w) = true) ->
  is_Some (pending (run w es)) -> isLoading (app_state (run w es)) = true.
Proof.
  unfold run. revert w. induction es as [|e es IH]; intros w Hw; [done|].
  cbn [fold_left]. apply IH. by apply step_pending_is_loading.
Qed.

Lemma pending_send_is_loading (es : list Event) (slot : option StorageItem) :
  is_Some (pending (run (start slot) es)) ->
  isLoading (app_state (run (start slot) es)) = true.
Proof.
  apply run_pending_is_loading. by intros [? [=]].
Qed.

(** X28. A call of [handleSendMessage] made while another one is running
    is turned away: the state stays as it is. *)
Lemma send_rejected_while_pending (es : list Event) (slot : option StorageItem)
    clk content0 atts :
  is_Some (pending (run (start slot) es)) ->
  step (run (start slot) es) (Send clk content0 atts) = run (start slot) es.
Proof.
  intros Hp. pose proof (pending_send_is_loading es slot Hp) as Hl.
  cbn [step]. unfold send_begin, send_rejected. rewrite Hl, orb_true_r.
  by destruct (run (start slot) es).
Qed.

(** ** The theorems at work *)

Lemma image_only_fragment_witness :
  exists m' : Message,
    merge_chunk (modelMsgId (clock_at 1000)) (image_fragment [png_payload])
                (messages (app_state sending_world)) !! 1%nat = Some m'
    /\ content m' = []
    /\ image m' = Some (str "data:image/png;base64,iVBORw0KGgo=").
Proof.
  destruct (image_only_fragment_sets_image
              (modelMsgId (clock_at 1000))
              (messages (app_state sending_world)) 1
              (modelMsg (clock_at 1000))
              (image_fragment [png_payload])
              [ {| part_text := None; inlineData := Some png_payload |} ]
              png_payload)
    as (m' & _ & Hm & Hc & Hi); [vm_compute; reflexivity ..|].
  exists m'. split; [exact Hm|]. split; [exact Hc|exact Hi].
Defined.

Lemma last_inline_image_witness :
  exists m' : Message,
    merge_chunk (modelMsgId (clock_at 1000))
                (image_fragment [png_payload; jpeg_payload])
                (messages (app_state sending_world)) !! 1%nat = Some m'
    /\ image m' = Some (str "data:image/jpeg;base64,/9j/4AAQ").
Proof.
  apply (last_inline_image_wins
           (modelMsgId (clock_at 1000))
           (messages (app_state sending_world)) 1
           (modelMsg (clock_at 1000))
           (image_fragment [png_payload; jpeg_payload])
           [ {| part_text := None; inlineData := Some png_payload |};
             {| part_text := None; inlineData := Some jpeg_payload |} ]
           [png_payload] jpeg_payload); vm_compute; reflexivity.
Defined.

Lemma select_session_rejected_witness :
  isLoading (app_state sending_world) = true
  /\ step sending_world (SelectSession (session_at 5)) = sending_world.
Proof.
  split; [vm_compute; reflexivity|].
  apply (select_session_rejected_while_loading (session_at 5) sending_world).
  vm_compute; reflexivity.
Defined.

Lemma text_deltas_witness :
  exists final : Message,
    messages (handleSendMessage (clock_at 1000) (str "Hi") []
                [text_fragment (str "Hel"); text_fragment (str "lo")]
                Exhausted (app_state (start None)))
    = [userMsg (clock_at 1000) (str "Hi") []; final]
    /\ isStreaming final = Some false
    /\ content final = str "Hello".
Proof.
  destruct (text_deltas_are_concatenated
              (clock_at 1000) (str "Hi") [] (app_state (start None))
              [text_fragment (str "Hel"); text_fragment (str "lo")]
              [str "Hel"; str "lo"])
    as (final & Hm & _ & _ & Hs & Hc & _).
  - vm_compute; reflexivity.
  - left. eexists. vm_compute; reflexivity.
  - intros x Hx. vm_compute in Hx. inversion Hx.
  - discriminate.
  - repeat constructor.
  - exists final. split; [exact Hm|]. split; [exact Hs|exact Hc].
Defined.

Lemma user_message_witness :
  exists (st1 : AppState) (u p : Message),
    send_begin (clock_at 1000) (str "  Hi there ")
               [data_uri png_payload] (app_state (start None))
    = (st1, Some (msg_id p))
    /\ messages st1 = [u; p]
    /\ role u = User
    /\ content u = str "Hi there"
    /\ attachments u = Some [data_uri png_payload].
Proof.
  apply (user_message_appended (clock_at 1000) (str "  Hi there ")
           [data_uri png_payload] (app_state (start None))).
  - vm_compute; reflexivity.
  - left. eexists. vm_compute; reflexivity.
Defined.

Lemma title_witness :
  exists session' : ChatSession,
    sessions (effects untitled_state) !! 0%nat = Some session'
    /\ title session' = str "Explain recursion in simple te...".
Proof.
  destruct (proj1 (title_from_first_user_message
              untitled_state (Number_toString 1000) 0 0 (session_at 1000)
              (userMsg (clock_at 1000)
                 (str "Explain recursion in simple terms") [])
              ltac:(vm_compute; reflexivity) ltac:(vm_compute; reflexivity)
              ltac:(vm_compute; reflexivity) ltac:(vm_compute; reflexivity)
              ltac:(vm_compute; reflexivity)))
    as (session' & Hs & Ht & _).
  exists session'. split; [exact Hs|exact Ht].
Defined.

Lemma save_then_load_witness :
  sessions (app_state answered_world) <> []
  /\ saved_then_loaded (app_state answered_world)
     = sessions (app_state answered_world).
Proof.
  assert (sessions (app_state answered_world) <> []) as Hne
    by (vm_compute; discriminate).
  split; [exact Hne|].
  apply (save_then_load (app_state answered_world) Hne).
  vm_compute. repeat constructor.
Defined.

(** * Further properties *)

(** ** Data URIs and the payload of a send *)

Lemma after_prefix_app (p s : jsstring) : after_prefix p (p ++ s) = Some s.
Proof.
  induction p as [|a p IH]; simpl; [done|]. by rewrite N.eqb_refl.
Qed.

Lemma after_prefix_Some (p s r : jsstring) :
  after_prefix p s = Some r -> s = p ++ r.
Proof.
  revert s. induction p as [|a p IH]; intros [|b s]; simpl; try congruence.
  destruct (N.eqb_spec a b) as [->|]; [|done].
  intros H. by rewrite (IH _ H).
Qed.

Lemma until_semicolon_app (a b : jsstring) :
  59%N ∉ a -> until_semicolon (a ++ 59%N :: b) = (a, 59%N :: b).
Proof.
  induction a as [|c a IH]; simpl; intros Ha; [done|].
  apply not_elem_of_cons in Ha as [Hc Ha].
  destruct (N.eqb_spec c 59) as [->|_]; [done|]. by rewrite IH.
Qed.

Lemma until_semicolon_split (s a b : jsstring) :
  until_semicolon s = (a, b) -> s = a ++ b /\ 59%N ∉ a.
Proof.
  revert a b. induction s as [|c s IH]; simpl; intros a b.
  - intros [= <- <-]. split; [done|]. apply not_elem_of_nil.
  - destruct (N.eqb_spec c 59) as [->|Hc].
    + intros [= <- <-]. split; [done|]. apply not_elem_of_nil.
    + destruct (until_semicolon s) as [a' b'] eqn:Hs.
      intros [= <- <-]. destruct (IH _ _ eq_refl) as [-> Ha].
      split; [done|]. apply not_elem_of_cons. split; [congruence|done].
Qed.

Lemma forallb_no_line_terminator (s : jsstring) :
  forallb (fun c => negb (is_line_terminator c)) s = true
  <-> Forall (fun c => is_line_terminator c = false) s.
Proof.
  rewrite forallb_forall, Forall_forall. split; intros H c Hc.
  - apply list_elem_of_In in Hc. apply H in Hc. by destruct (is_line_terminator c).
  - apply list_elem_of_In in Hc. by rewrite (H c Hc).
Qed.

(** A well-formed payload is read back from its data URI. *)
Lemma match_data_uri_data_uri (d : InlineData) :
  mimeType d <> [] -> 59%N ∉ mimeType d ->
  data d <> [] -> Forall (fun c => is_line_terminator c = false) (data d) ->
  match_data_uri (data_uri d) = Some (mimeType d, data d).
Proof.
  intros Hm Hs Hd Hl. unfold match_data_uri, data_uri.
  rewrite after_prefix_app.
  change (str ";base64," ++ data d) with (59%N :: (str "base64," ++ data d)).
  rewrite until_semicolon_app by done.
  change (59%N :: (str "base64," ++ data d)) with (str ";base64," ++ data d).
  rewrite after_prefix_app.
  apply forallb_no_line_terminator in Hl. rewrite Hl.
  destruct (mimeType d) as [|? ?]; [done|].
  by destruct (data d) as [|? ?].
Qed.

Lemma match_data_uri_Some (s g1 g2 : jsstring) :
  match_data_uri s = Some (g1, g2) ->
  s = data_uri {| mimeType := g1; data := g2 |}
  /\ g1 <> [] /\ (59%N ∉ g1)
  /\ g2 <> [] /\ Forall (fun c => is_line_terminator c = false) g2.
Proof.
  unfold match_data_uri, data_uri.
  destruct (after_prefix (str "data:") s) as [rest|] eqn:H1; [|done].
  destruct (until_semicolon rest) as [a b] eqn:H2.
  destruct (after_prefix (str ";base64,") b) as [p|] eqn:H3; [|done].
  destruct (truthy a) eqn:Ha; [|done].
  destruct (truthy p) eqn:Hp; [|done]. simpl.
  destruct (forallb _ p) eqn:Hf; [|done]. intros [= <- <-].
  apply after_prefix_Some in H1, H3.
  apply until_semicolon_split in H2 as [H2 Hs]. subst.
  split_and!; try done.
  - by destruct a.
  - by destruct p.
  - by apply forallb_no_line_terminator.
Qed.

(** X1. The pattern of [sendMessageStream] reads a string as a MIME type and
    a payload exactly when the string is the data URI that
    [handleSendMessage] builds from them, the MIME type being non-empty
    without [;] and the payload non-empty without line terminator. *)
Theorem data_uri_round_trip (s g1 g2 : jsstring) :
  match_data_uri s = Some (g1, g2)
  <-> s = data_uri {| mimeType := g1; data := g2 |}
      /\ g1 <> [] /\ (59%N ∉ g1)
      /\ g2 <> [] /\ Forall (fun c => is_line_terminator c = false) g2.
Proof.
  split; [apply match_data_uri_Some|].
  intros (-> & H1 & H2 & H3 & H4).
  by apply (match_data_uri_data_uri {| mimeType := g1; data := g2 |}).
Qed.

Lemma push_attachments_app (as1 as2 : list jsstring) (parts : list Part) :
  push_attachments (as1 ++ as2) parts
  = push_attachments as2 (push_attachments as1 parts).
Proof. unfold push_attachments. by rewrite fold_left_app. Qed.


Lemma push_attachments_malformed (bad : list jsstring) (parts : list Part) :
  Forall (fun a => match_data_uri a = None) bad ->
  push_attachments bad parts = parts.
Proof.
  intros H. revert parts. induction H as [|a bad Ha _ IH]; intros parts;
    [done|].
  unfold push_attachments in *. simpl. by rewrite Ha, IH.
Qed.


(** X3. An attachment that the pattern does not match is left out without a
    word: as long as another attachment is there, the payload is the one of
    the call without it; and when the text is blank and no attachment
    matches, the payload is an empty list of parts. *)
Theorem payload_skips_malformed
    (message : jsstring) (as1 as2 bad : list jsstring) (a : jsstring) :
  match_data_uri a = None ->
  Forall (fun b => match_data_uri b = None) bad ->
  (as1 ++ as2 <> [] ->
   messagePayload message (as1 ++ a :: as2)
   = messagePayload message (as1 ++ as2))
  /\ (truthy (trim message) = false ->
      messagePayload message (a :: bad) = MessageParts []).
Proof.
  intros Ha Hbad. split.
  - intros Hne. unfold messagePayload. rewrite !length_app. simpl.
    destruct (as1 ++ as2) as [|x l] eqn:Hl; [done|].
    assert (length as1 + length as2 = S (length l))%nat as Hlen.
    { rewrite <- length_app, Hl. done. }
    replace (length as1 + S (length as2))%nat with (S (S (length l))) by lia.
    rewrite Hlen. cbn [Nat.eqb]. f_equal.
    rewrite <- Hl, !push_attachments_app.
    unfold push_attachments. simpl. by rewrite Ha.
  - intros Hblank. unfold messagePayload. cbn [length Nat.eqb].
    rewrite Hblank. f_equal.
    apply push_attachments_malformed. by constructor.
Qed.

(** ** The sources shown under a message *)

#[local] Set Warnings "-clear-no-such-hyp".

Lemma collect_sources_spec (chunks : list GroundingChunk)
    (seenUris : gset jsstring) (sources : list GroundingWebSource) :
  exists new : list GroundingWebSource,
    snd (collect_sources chunks seenUris sources) = sources ++ new
    /\ fst (collect_sources chunks seenUris sources)
       = list_to_set (uri <$> new) ∪ seenUris
    /\ new `sublist_of` omap web chunks
    /\ NoDup (uri <$> new)
    /\ (forall w, w ∈ new -> uri w ∉ seenUris)
    /\ (forall w, w ∈ omap web chunks ->
                  uri w ∈ fst (collect_sources chunks seenUris sources))
    /\ (forall k w, omap web chunks !! k = Some w ->
                    uri w ∉ seenUris ->
                    (forall j w', (j < k)%nat ->
                                  omap web chunks !! j = Some w' ->
                                  uri w' <> uri w) ->
                    w ∈ new).
Proof.
  revert seenUris sources.
  induction chunks as [|c chunks IH]; intros seen sources.
  - exists []. simpl. rewrite app_nil_r. split_and!; try done.
    + set_solver.
    + constructor.
    + intros w Hw. by apply elem_of_nil in Hw.
    + intros w Hw. by apply elem_of_nil in Hw.
  - unfold collect_sources in *. cbn [fold_left].
    destruct (web c) as [w|] eqn:Hc; cbn [omap list_omap]; rewrite Hc.
    + destruct (decide (uri w ∈ seen)) as [Hin|Hnin].
      * destruct (IH seen sources) as (new & H1 & H2 & H3 & H4 & H5 & H6 & H7).
        exists new. split_and!; try done.
        -- by apply sublist_cons.
        -- intros w' [->|Hw']%elem_of_cons; [|by apply H6].
           rewrite H2. set_solver.
        -- intros [|k] w' Hk Hw' Hfirst; simpl in Hk.
           ++ injection Hk as <-. done.
           ++ apply (H7 k w' Hk Hw'). intros j w'' Hj Hw''.
              apply (Hfirst (S j) w''); [lia|done].
      * destruct (IH ({[uri w]} ∪ seen) (sources ++ [w]))
          as (new & H1 & H2 & H3 & H4 & H5 & H6 & H7).
        exists (w :: new). split_and!.
        -- rewrite H1. by rewrite <- app_assoc.
        -- rewrite H2. set_solver.
        -- by apply sublist_skip.
        -- cbn [fmap list_fmap]. apply NoDup_cons. split; [|done].
           intros (w' & Hu & Hw')%list_elem_of_fmap.
           apply H5 in Hw'. set_solver.
        -- intros w' [->|Hw']%elem_of_cons; [done|].
           apply H5 in Hw'. set_solver.
        -- intros w' [->|Hw']%elem_of_cons; [|by apply H6].
           rewrite H2. set_solver.
        -- intros [|k] w' Hk Hw' Hfirst; simpl in Hk.
           ++ injection Hk as <-. by left.
           ++ right. apply (H7 k w' Hk).
              ** assert (uri w <> uri w') as Hne
                   by (apply (Hfirst 0%nat w); [lia|done]).
                 set_solver.
              ** intros j w'' Hj Hw''. apply (Hfirst (S j) w''); [lia|done].
    + destruct (IH seen sources) as (new & H1 & H2 & H3 & H4 & H5 & H6 & H7).
      by exists new.
Qed.

(** X4. The sources shown under a message are the web sources of its
    grounding chunks with each URI once: they come in the order of the
    chunks, no two of them have the same URI, every URI of a chunk is among
    them, and for each URI it is the first chunk with it that is kept.  A
    message without metadata has none. *)
Theorem uniqueSources_first_of_each_uri (message : Message) :
  let webs := match groundingMetadata message with
              | Some metadata => omap web (groundingChunks metadata)
              | None => []
              end in
  uniqueSources message `sublist_of` webs
  /\ NoDup (uri <$> uniqueSources message)
  /\ (forall w, w ∈ webs -> uri w ∈ uri <$> uniqueSources message)
  /\ (forall k w, webs !! k = Some w ->
                  (forall j w', (j < k)%nat -> webs !! j = Some w' ->
                                uri w' <> uri w) ->
                  w ∈ uniqueSources message).
Proof.
  unfold uniqueSources. destruct (groundingMetadata message) as [gm|]; simpl.
  - destruct (collect_sources_spec (groundingChunks gm) ∅ [])
      as (new & H1 & H2 & H3 & H4 & H5 & H6 & H7).
    simpl in H1. rewrite H1. split_and!; try done.
    + intros w Hw. apply H6 in Hw. rewrite H2 in Hw.
      apply elem_of_union in Hw as [Hw|Hw]; [|set_solver].
      by apply elem_of_list_to_set in Hw.
    + intros k w Hk Hfirst. apply (H7 k w Hk); [set_solver|done].
  - split_and!; try done.
    + constructor.
    + intros w Hw. by apply elem_of_nil in Hw.
Qed.

(** X5. The button under the sources is rendered exactly when some sources
    are not shown, and the number it announces is the number of sources
    left out; collapsed, at most three sources are shown, the first ones. *)
Theorem more_sources_button_counts_hidden
    (showAllSources : bool) (sources : list GroundingWebSource) :
  (moreSourcesButton showAllSources sources = None
   <-> shownSources showAllSources sources = sources)
  /\ (forall n, moreSourcesButton showAllSources sources = Some n ->
                (0 < n)%nat
                /\ (length (shownSources showAllSources sources) + n
                    = length sources)%nat)
  /\ shownSources showAllSources sources `prefix_of` sources
  /\ (showAllSources = false ->
      (length (shownSources showAllSources sources) <= 3)%nat).
Proof.
  unfold moreSourcesButton, shownSources.
  destruct showAllSources; simpl; rewrite ?andb_false_r, ?andb_true_r.
  - split_and!; try done.
  - destruct (Nat.ltb_spec 3 (length sources)) as [Hlt|Hge].
    + split_and!.
      * split; [done|]. intros Heq.
        apply (f_equal length) in Heq. rewrite length_take in Heq. lia.
      * intros n [= <-]. rewrite length_take. lia.
      * apply prefix_take.
      * intros _. rewrite length_take. lia.
    + split_and!.
      * split; [|done]. intros _. by apply take_ge.
      * done.
      * apply prefix_take.
      * intros _. rewrite length_take. lia.
Qed.

(** ** The input box *)

Lemma filter_other_index_past {A} (index i : nat) (prev : list A) :
  (index < i)%nat -> ChatInput.filter_other_index index i prev = prev.
Proof.
  revert i. induction prev as [|x prev IH]; intros i Hi; simpl; [done|].
  destruct (Nat.eqb_spec i index); [lia|]. by rewrite IH by lia.
Qed.

Lemma filter_other_index_delete {A} (index i : nat) (prev : list A) :
  ChatInput.filter_other_index (i + index) i prev = delete index prev.
Proof.
  revert index i. induction prev as [|x prev IH]; intros index i; simpl.
  - by destruct index.
  - destruct index as [|index].
    + rewrite Nat.add_0_r, Nat.eqb_refl. simpl.
      apply filter_other_index_past. lia.
    + destruct (Nat.eqb_spec i (i + S index)); [lia|]. simpl. f_equal.
      replace (i + S index)%nat with (S i + index)%nat by lia. apply IH.
Qed.

(** X6. Removing an attachment takes out the one at the given position and
    nothing else: the attachments before and after it stay, in order, and
    the text is kept; a position past the end removes nothing. *)
Theorem removeAttachment_removes_one (index : nat) (st : ChatInput.State) :
  ChatInput.attachments (ChatInput.removeAttachment index st)
  = take index (ChatInput.attachments st)
    ++ drop (S index) (ChatInput.attachments st)
  /\ ChatInput.content (ChatInput.removeAttachment index st)
     = ChatInput.content st
  /\ ((index < length (ChatInput.attachments st))%nat ->
      S (length (ChatInput.attachments (ChatInput.removeAttachment index st)))
      = length (ChatInput.attachments st))
  /\ ((length (ChatInput.attachments st) <= index)%nat ->
      ChatInput.removeAttachment index st = st).
Proof.
  assert (ChatInput.attachments (ChatInput.removeAttachment index st)
          = delete index (ChatInput.attachments st)) as Hd.
  { unfold ChatInput.removeAttachment. simpl.
    apply (filter_other_index_delete index 0). }
  split_and!.
  - by rewrite Hd, delete_take_drop.
  - done.
  - intros Hlt. rewrite Hd, length_delete; [lia|].
    by apply lookup_lt_is_Some_2.
  - intros Hge. destruct st as [c a]. unfold ChatInput.removeAttachment.
    simpl in *. f_equal.
    rewrite (filter_other_index_delete index 0), delete_take_drop.
    by rewrite take_ge, drop_ge, app_nil_r by lia.
Qed.

(** X7. The input box and [handleSendMessage] agree: a message that the
    box hands over, which is the text and the attachments of the box, goes
    in flight whenever a chat instance is there, with its user message and
    its placeholder appended, and the box is cleared; and when the box
    holds the message back it stays as it is, and [handleSendMessage] would
    have done nothing with it. *)
Theorem handleSubmit_agrees_with_handleSendMessage
    (input : ChatInput.State) (st : AppState) (clk : SendClock) :
  (forall input' text0 atts,
      ChatInput.handleSubmit (isLoading st) input
      = (input', Some (text0, atts)) ->
      is_Some (chatInstanceRef st) \/ active_session st = None ->
      input' = {| ChatInput.content := []; ChatInput.attachments := [] |}
      /\ exists st1,
           send_begin clk text0 atts st = (st1, Some (modelMsgId clk))
           /\ messages st1
              = messages st
                ++ [userMsg clk (ChatInput.content input)
                            (ChatInput.attachments input);
                    modelMsg clk])
  /\ (forall input' chunks ending,
        ChatInput.handleSubmit (isLoading st) input = (input', None) ->
        input' = input
        /\ handleSendMessage clk (ChatInput.content input)
             (ChatInput.attachments input) chunks ending st = st).
Proof.
  unfold ChatInput.handleSubmit.
  assert (send_rejected (ChatInput.content input)
            (ChatInput.attachments input) st
          = negb (truthy (trim (ChatInput.content input)))
            && (length (ChatInput.attachments input) =? 0)%nat
            || isLoading st) as Hg by done.
  rewrite <- Hg.
  destruct (send_rejected (ChatInput.content input)
              (ChatInput.attachments input) st) eqn:Hr; split.
  - intros ? ? ? [=].
  - intros input' chunks ending [= <-]. split; [done|].
    unfold handleSendMessage, send_begin. by rewrite Hr.
  - intros input' text0 atts [= <- <- <-] Hchat. split; [done|].
    destruct (send_begin_in_flight clk _ _ st Hr Hchat) as (st1 & Hb & Hm & _).
    by exists st1.
  - intros ? ? ? [=].
Qed.

Lemma omap_length_le {A B} (f : A -> option B) (l : list A) :
  (length (omap f l) <= length l)%nat.
Proof.
  induction l as [|x l IH]; [done|].
  cbn [omap list_omap]. destruct (f x); cbn [length]; cbn [omap] in IH; lia.
Qed.

Lemma newAttachments_omap (files : list ChatInput.File) :
  ChatInput.newAttachments files
  = omap (fun f => if ChatInput.isImage f
                   then ChatInput.readAsDataURL f else None) files.
Proof.
  unfold ChatInput.newAttachments.
  assert (forall acc,
            fold_left (fun newAttachments file =>
               if negb (ChatInput.isImage file) then newAttachments
               else match ChatInput.readAsDataURL file with
                    | Some base64 => newAttachments ++ [base64]
                    | None => newAttachments
                    end) files acc
            = acc ++ omap (fun f => if ChatInput.isImage f
                                    then ChatInput.readAsDataURL f else None)
                          files) as H.
  { induction files as [|f files IH]; intros acc; simpl.
    - by rewrite app_nil_r.
    - rewrite IH. destruct (ChatInput.isImage f); simpl; [|done].
      destruct (ChatInput.readAsDataURL f); [|done].
      by rewrite <- app_assoc. }
  apply (H []).
Qed.

(** X8. Selecting files keeps the text and the attachments already there,
    in front, and adds the data URL of every image file that could be read,
    in the order of the selection; a file that is not an image, or whose
    reading fails, is skipped and the files after it are still added. *)
Theorem handleFileSelect_appends_readable_images
    (files before after : list ChatInput.File) (skipped : ChatInput.File)
    (st : ChatInput.State) :
  ChatInput.content (ChatInput.handleFileSelect files st)
  = ChatInput.content st
  /\ ChatInput.attachments (ChatInput.handleFileSelect files st)
     = ChatInput.attachments st
       ++ omap (fun f => if ChatInput.isImage f
                         then ChatInput.readAsDataURL f else None) files
  /\ (length (ChatInput.attachments (ChatInput.handleFileSelect files st))
      <= length (ChatInput.attachments st) + length files)%nat
  /\ (ChatInput.isImage skipped = false
      \/ ChatInput.readAsDataURL skipped = None ->
      ChatInput.attachments
        (ChatInput.handleFileSelect (before ++ skipped :: after) st)
      = ChatInput.attachments
          (ChatInput.handleFileSelect (before ++ after) st)).
Proof.
  assert (forall fs,
            ChatInput.attachments (ChatInput.handleFileSelect fs st)
            = ChatInput.attachments st
              ++ omap (fun f => if ChatInput.isImage f
                                then ChatInput.readAsDataURL f else None) fs)
    as Ha.
  { intros fs. unfold ChatInput.handleFileSelect.
    destruct fs as [|f fs].
    - simpl. by rewrite app_nil_r.
    - cbn [length Nat.ltb Nat.leb ChatInput.attachments].
      by rewrite newAttachments_omap. }
  split_and!.
  - unfold ChatInput.handleFileSelect. by destruct (0 <? length files)%nat.
  - apply Ha.
  - rewrite Ha, length_app.
    pose proof (omap_length_le (fun f => if ChatInput.isImage f
                          then ChatInput.readAsDataURL f else None) files).
    lia.
  - intros Hskip. rewrite !Ha, !omap_app. simpl.
    destruct Hskip as [->| ->]; [done|].
    by destruct (ChatInput.isImage skipped).
Qed.

Lemma merged_all_isError (chunks : list Chunk) (m : Message) :
  isError (merged_all chunks m) = isError m.
Proof.
  revert m. induction chunks as [|c chunks IH]; intros m; [done|].
  unfold merged_all in *. simpl. rewrite IH.
  unfold updatedMessage. repeat case_match; reflexivity.
Qed.

(** ** The store under the effects *)

Lemma effects_localStorage st :
  localStorage (effects st)
  = if (0 <? length (sessions (effects st)))%nat
    then Some (JSON_stringify (sessions (effects st)))
    else localStorage st.
Proof.
  rewrite effects_sessions.
  unfold effects, chat_effect, save_effect. cbn [localStorage set_chatInstanceRef].
  destruct (0 <? length (sessions (sync_effect st)))%nat eqn:H; cbn.
  - done.
  - unfold sync_effect. by repeat case_match.
Qed.

Lemma effects_selectedModelId st :
  selectedModelId (effects st) = selectedModelId st.
Proof.
  unfold effects, chat_effect, save_effect, sync_effect.
  destruct (active_session st); repeat case_match; reflexivity.
Qed.

Lemma effects_active_session st : active_session (effects st) = active_session st.
Proof. unfold active_session. by rewrite effects_currentSessionId. Qed.

Lemma sync_effect_sessions st :
  sessions (sync_effect st)
  = match active_session st with
    | Some sid =>
        if (0 <? length (messages st))%nat
        then sync_session sid (messages st) <$> sessions st
        else sessions st
    | None => sessions st
    end.
Proof. unfold sync_effect. by repeat case_match. Qed.

Lemma effects_blank st : messages st = [] -> sessions (effects st) = sessions st.
Proof.
  intros H. rewrite effects_sessions, sync_effect_sessions, H.
  by destruct (active_session st).
Qed.

Lemma sync_session_id sid msgs (s : ChatSession) :
  session_id (sync_session sid msgs s) = session_id s.
Proof. unfold sync_session. by case_match. Qed.

Lemma sync_session_createdAt sid msgs (s : ChatSession) :
  createdAt (sync_session sid msgs s) = createdAt s.
Proof. unfold sync_session. by case_match. Qed.

Lemma sync_session_other sid msgs (s : ChatSession) :
  session_id s <> sid -> sync_session sid msgs s = s.
Proof. unfold sync_session. intros H. by rewrite decide_False. Qed.

Lemma sync_session_messages sid msgs (s : ChatSession) :
  session_id s = sid -> session_messages (sync_session sid msgs s) = msgs.
Proof. unfold sync_session. intros H. by rewrite decide_True. Qed.

(** X9. The effects never add, drop or reorder sessions: the identifiers
    and creation instants of the store are the same, in the same order; a
    session that is not the active one is left as it is; and when a session
    is active and the message list is not empty, every stored session with
    the active identifier holds the message list. *)
Theorem effects_keep_the_store (st : AppState) (i : nat) (s : ChatSession) :
  sessions st !! i = Some s ->
  session_id <$> sessions (effects st) = session_id <$> sessions st
  /\ createdAt <$> sessions (effects st) = createdAt <$> sessions st
  /\ exists s' : ChatSession,
       sessions (effects st) !! i = Some s'
       /\ (active_session st <> Some (session_id s) -> s' = s)
       /\ (active_session st = Some (session_id s) ->
           messages st <> [] -> session_messages s' = messages st).
Proof.
  intros Hi. rewrite effects_sessions, sync_effect_sessions.
  destruct (active_session st) as [sid|] eqn:Ha.
  - destruct (messages st) as [|m msgs] eqn:Hm.
    + simpl. split_and!; try done. exists s. split_and!; try done.
    + cbn [length Nat.ltb Nat.leb]. rewrite <- !list_fmap_compose.
      split_and!.
      * apply list_fmap_ext. intros ? x _. apply sync_session_id.
      * apply list_fmap_ext. intros ? x _. apply sync_session_createdAt.
      * exists (sync_session sid (m :: msgs) s). split_and!.
        -- by rewrite list_lookup_fmap, Hi.
        -- intros Hne. apply sync_session_other. congruence.
        -- intros [= ->] _. by apply sync_session_messages.
  - split_and!; try done. exists s. split_and!; try done.
Qed.

Lemma derived_title_length (c : jsstring) :
  (length (take 30 c ++ (if (30 <? length c)%nat then str "..." else []))
   <= 33)%nat.
Proof.
  rewrite length_app, length_take.
  destruct (30 <? length c)%nat;
    [change (length (str "...")) with 3%nat|cbn [length]]; lia.
Qed.

(** X10. The title of a stored session changes only while it is the
    sentinel: the effects leave any other title as it is, and a title they
    set has at most 33 code units. *)
Theorem title_is_set_once (st : AppState) (i : nat) (s : ChatSession) :
  sessions st !! i = Some s ->
  exists s' : ChatSession,
    sessions (effects st) !! i = Some s'
    /\ (title s <> sentinel_title -> title s' = title s)
    /\ (title s' = title s \/ (length (title s') <= 33)%nat).
Proof.
  intros Hi. rewrite effects_sessions, sync_effect_sessions.
  assert (forall sid msgs,
            (title s <> sentinel_title ->
             title (sync_session sid msgs s) = title s)
            /\ (title (sync_session sid msgs s) = title s
                \/ (length (title (sync_session sid msgs s)) <= 33)%nat))
    as Hsync.
  { intros sid msgs. unfold sync_session.
    destruct (decide (session_id s = sid)); [|by split; [|left]].
    cbn [title]. split.
    - intros Hne. by rewrite bool_decide_eq_false_2.
    - destruct (bool_decide (title s = sentinel_title) && _);
        [|by left].
      destruct (list_find _ msgs) as [[j m]|]; [|by left].
      right. apply derived_title_length. }
  destruct (active_session st) as [sid|].
  - destruct (0 <? length (messages st))%nat.
    + exists (sync_session sid (messages st) s).
      rewrite list_lookup_fmap, Hi. split; [done|]. apply Hsync.
    + exists s. split_and!; try done. by left.
  - exists s. split_and!; try done. by left.
Qed.

(** ** Deleting, selecting, starting over *)

Lemma startNewChat_messages st : messages (startNewChat st) = [].
Proof. unfold startNewChat. by rewrite effects_messages. Qed.

Lemma startNewChat_currentSessionId st :
  currentSessionId (startNewChat st) = None.
Proof. unfold startNewChat. by rewrite effects_currentSessionId. Qed.

Lemma startNewChat_sessions_blank st : sessions (startNewChat st) = sessions st.
Proof. unfold startNewChat. by rewrite effects_blank. Qed.

Lemma filter_ne_spec (sessionId : jsstring) (l : list ChatSession) :
  Forall (fun s : ChatSession => session_id s <> sessionId)
    (List.filter (fun s : ChatSession =>
                    negb (bool_decide (session_id s = sessionId))) l).
Proof.
  apply Forall_forall. intros s Hs. apply list_elem_of_In in Hs.
  apply List.filter_In in Hs as [_ Hs].
  apply negb_true_iff, bool_decide_eq_false in Hs. done.
Qed.

(** X11. Deleting the active session leaves a blank chat: no message, no
    active session, and a store that holds the other sessions, in their
    order, and no session with the deleted identifier; a send in flight
    stays in flight. *)
Theorem delete_active_session (sessionId : jsstring) (st : AppState) :
  currentSessionId st = Some sessionId ->
  let st' := handleDeleteSession sessionId st in
  messages st' = []
  /\ currentSessionId st' = None
  /\ sessions st'
     = List.filter (fun s : ChatSession =>
                      negb (bool_decide (session_id s = sessionId)))
                   (sessions st)
  /\ Forall (fun s : ChatSession => session_id s <> sessionId) (sessions st')
  /\ isLoading st' = isLoading st.
Proof.
  intros Hcur. unfold handleDeleteSession. rewrite decide_True by done.
  cbn zeta. rewrite startNewChat_messages, startNewChat_currentSessionId,
    startNewChat_sessions_blank, startNewChat_isLoading.
  cbn [sessions set_localStorage set_sessions isLoading].
  split_and!; try done. apply filter_ne_spec.
Qed.

(** X12. Deleting a session that is not the active one leaves the active
    session and the message list as they are, and takes out of the store
    the sessions with that identifier and no other: the identifiers left
    are the other ones, in their order. *)
Theorem delete_other_session (sessionId : jsstring) (st : AppState) :
  currentSessionId st <> Some sessionId ->
  let st' := handleDeleteSession sessionId st in
  messages st' = messages st
  /\ currentSessionId st' = currentSessionId st
  /\ isLoading st' = isLoading st
  /\ session_id <$> sessions st'
     = List.filter (fun i => negb (bool_decide (i = sessionId)))
                   (session_id <$> sessions st).
Proof.
  intros Hcur. unfold handleDeleteSession. rewrite decide_False by done.
  cbn zeta.
  rewrite effects_messages, effects_currentSessionId, effects_isLoading.
  split_and!; try done.
  rewrite effects_sessions, sync_effect_sessions.
  cbn [sessions set_localStorage set_sessions messages].
  assert (session_id <$>
            List.filter (fun s : ChatSession =>
                           negb (bool_decide (session_id s = sessionId)))
                        (sessions st)
          = List.filter (fun i => negb (bool_decide (i = sessionId)))
                        (session_id <$> sessions st)) as Hf.
  { induction (sessions st) as [|s l IH]; [done|].
    rewrite fmap_cons. cbn [List.filter].
    destruct (bool_decide (session_id s = sessionId)); cbn [negb];
      rewrite ?fmap_cons; by rewrite IH. }
  destruct (active_session _) as [sid|]; [|done].
  destruct (0 <? length (messages st))%nat; [|done].
  rewrite <- list_fmap_compose, <- Hf.
  apply list_fmap_ext. intros ? x _. apply sync_session_id.
Qed.

(** X13. A deletion is written at once, whatever is left: after it, the
    storage holds the session list of the state, the empty one included, so
    that a start of the application right after reads these sessions back,
    newest first. *)
Theorem delete_is_persisted (sessionId : jsstring) (st : AppState) :
  let st' := handleDeleteSession sessionId st in
  localStorage st' = Some (JSON_stringify (sessions st'))
  /\ sessions (mount (initial_state (localStorage st')))
     = sort_newest_first (sessions st').
Proof.
  cbn zeta.
  assert (localStorage (handleDeleteSession sessionId st)
          = Some (JSON_stringify (sessions (handleDeleteSession sessionId st))))
    as Hp.
  { unfold handleDeleteSession. cbn zeta.
    set (newSessions := List.filter _ (sessions st)).
    set (st1 := set_localStorage _ _).
    assert (forall x, localStorage x = Some (JSON_stringify (sessions x)) ->
              localStorage (effects x)
              = Some (JSON_stringify (sessions (effects x)))) as He.
    { intros x Hx. rewrite effects_localStorage.
      destruct (0 <? length (sessions (effects x)))%nat eqn:Hl; [done|].
      rewrite Hx. do 2 f_equal.
      apply Nat.ltb_ge in Hl.
      assert (sessions (effects x) = []) as Hnil
        by (destruct (sessions (effects x)); [done|simpl in Hl; lia]).
      rewrite Hnil. rewrite effects_sessions, sync_effect_sessions in Hnil.
      destruct (active_session x); [|done].
      destruct (0 <? length (messages x))%nat; [|done].
      by apply fmap_nil_inv in Hnil. }
    destruct (decide (currentSessionId st = Some sessionId)).
    - unfold startNewChat. by apply He.
    - by apply He. }
  split; [done|].
  rewrite mount_sessions. cbn [initial_state localStorage]. rewrite Hp.
  destruct (hydrate_stringify (sessions (handleDeleteSession sessionId st)))
    as (p & -> & ->). done.
Qed.

(** X14. Selecting a session while no send is in flight makes it the active
    one, with its messages as message list and a chat instance for the
    selected model over the history projected from them; the store keeps
    its sessions, the selected one with its own messages. *)
Theorem select_session_when_idle
    (session : ChatSession) (st : AppState) (i : nat) :
  isLoading st = false ->
  sessions st !! i = Some session ->
  let st' := handleSelectSession session st in
  currentSessionId st' = Some (session_id session)
  /\ messages st' = session_messages session
  /\ chatInstanceRef st'
     = Some (getGeminiChat (selectedModelId st)
               (Some (project_history (session_messages session))))
  /\ session_id <$> sessions st' = session_id <$> sessions st
  /\ exists s', sessions st' !! i = Some s'
                /\ session_messages s' = session_messages session
                /\ createdAt s' = createdAt session.
Proof.
  intros Hl Hi. unfold handleSelectSession. rewrite Hl. cbn zeta.
  set (x := set_messages _ _).
  rewrite effects_currentSessionId, effects_messages, effects_chatInstanceRef.
  split_and!; try done.
  - rewrite effects_sessions, sync_effect_sessions.
    destruct (active_session x); [|done]. case_match; [|done].
    rewrite <- list_fmap_compose.
    apply list_fmap_ext. intros ? y _. apply sync_session_id.
  - rewrite effects_sessions, sync_effect_sessions.
    change (sessions x) with (sessions st).
    change (messages x) with (session_messages session).
    destruct (active_session x) as [sid|] eqn:Ha; [|by exists session].
    case_match; [|by exists session].
    exists (sync_session sid (session_messages session) session).
    rewrite list_lookup_fmap, Hi. split; [done|].
    rewrite sync_session_createdAt. split; [|done].
    unfold sync_session. by case_match.
Qed.

(** ** Every state the application reaches *)

Lemma send_begin_settled clk content0 atts st :
  fst (send_begin clk content0 atts st) = st
  \/ exists x, fst (send_begin clk content0 atts st) = effects x.
Proof.
  unfold send_begin. destruct (send_rejected content0 atts st); [by left|].
  destruct (active_session st).
  - destruct (chatInstanceRef st); [right; by eexists|by left].
  - cbn [chatInstanceRef set_chatInstanceRef].
    destruct (chatInstanceRef st); right; by eexists.
Qed.

Lemma step_settled (w : World) (e : Event) :
  app_state (step w e) = app_state w
  \/ exists x, app_state (step w e) = effects x.
Proof.
  destruct e as [clk c a|c| |clk|s| |i|mo]; cbn [step].
  - destruct (send_begin_settled clk c a (app_state w)) as [H|[x H]];
      destruct (send_begin clk c a (app_state w)) as [st r];
      cbn [fst app_state] in *; [by left|right; by exists x].
  - destruct (pending w); [right; by eexists|by left].
  - destruct (pending w); [right; by eexists|by left].
  - destruct (pending w); [right; by eexists|by left].
  - cbn [app_state]. unfold handleSelectSession.
    destruct (isLoading (app_state w)); [by left|right; by eexists].
  - right. by eexists.
  - cbn [app_state]. unfold handleDeleteSession. cbn zeta.
    case_match; right; by eexists.
  - right. by eexists.
Qed.

Lemma run_settled (slot : option StorageItem) (es : list Event) :
  exists x, app_state (run (start slot) es) = effects x.
Proof.
  unfold run.
  assert (exists x, app_state (start slot) = effects x) as H0
    by (by eexists).
  revert H0. generalize (start slot).
  induction es as [|e es IH]; intros w Hw; [done|].
  cbn [fold_left]. apply IH.
  destruct (step_settled w e) as [->|H]; done.
Qed.

(** X15. In every state the application reaches the effects have settled:
    running them once more changes nothing. *)
Theorem reachable_states_are_settled
    (slot : option StorageItem) (es : list Event) :
  effects (app_state (run (start slot) es)) = app_state (run (start slot) es).
Proof.
  destruct (run_settled slot es) as [x ->]. apply effects_idempotent.
Qed.

(** X16. In every state the application reaches with a session list that is
    not empty, the storage holds that very list, messages still streaming
    included: a start of the application at that point reads the sessions
    back, newest first. *)
Theorem store_is_persisted_after_every_event
    (slot : option StorageItem) (es : list Event) :
  let st := app_state (run (start slot) es) in
  sessions st <> [] ->
  localStorage st = Some (JSON_stringify (sessions st))
  /\ sessions (mount (initial_state (localStorage st)))
     = sort_newest_first (sessions st).
Proof.
  cbn zeta. destruct (run_settled slot es) as [x ->]. intros Hne.
  assert (localStorage (effects x) = Some (JSON_stringify (sessions (effects x))))
    as Hp.
  { rewrite effects_localStorage.
    destruct (sessions (effects x)); [done|]. done. }
  split; [done|].
  rewrite mount_sessions. cbn [initial_state localStorage]. rewrite Hp.
  destruct (hydrate_stringify (sessions (effects x))) as (p & -> & ->). done.
Qed.

(** X17. In every state the application reaches with an active session and
    a message list that is not empty, each stored session with the active
    identifier holds the message list as it is on screen. *)
Theorem active_session_mirrors_messages
    (slot : option StorageItem) (es : list Event) (sid : jsstring)
    (s : ChatSession) :
  let st := app_state (run (start slot) es) in
  active_session st = Some sid ->
  messages st <> [] ->
  s ∈ sessions st ->
  session_id s = sid ->
  session_messages s = messages st.
Proof.
  cbn zeta. destruct (run_settled slot es) as [x ->].
  rewrite effects_active_session, effects_messages, effects_sessions,
    sync_effect_sessions.
  intros Ha Hm Hs Hid. rewrite Ha in Hs.
  destruct (messages x) as [|m msgs] eqn:Hx; [done|].
  cbn [length Nat.ltb Nat.leb] in Hs.
  apply list_elem_of_fmap in Hs as (s0 & -> & _).
  rewrite sync_session_id in Hid. by apply sync_session_messages.
Qed.

Lemma effects_session_ids st :
  session_id <$> sessions (effects st) = session_id <$> sessions st.
Proof.
  rewrite effects_sessions, sync_effect_sessions.
  destruct (active_session st); [|done]. case_match; [|done].
  rewrite <- list_fmap_compose.
  apply list_fmap_ext. intros ? y _. apply sync_session_id.
Qed.

(** X18. Only a send and a deletion change which sessions the store holds:
    a fragment, the end or failure of a stream, a selection, a new chat and
    a change of model leave the identifiers of the store as they are, in
    their order. *)
Theorem store_changes_only_by_send_and_delete (w : World) (e : Event) :
  (forall clk c a, e <> Send clk c a) ->
  (forall i, e <> DeleteSession i) ->
  session_id <$> sessions (app_state (step w e))
  = session_id <$> sessions (app_state w).
Proof.
  intros Hs Hd.
  destruct e as [clk c a|c| |clk|s| |i|mo]; cbn [step].
  - by destruct (Hs clk c a).
  - destruct (pending w); [|done]. cbn [app_state]. unfold send_chunk.
    by rewrite effects_session_ids.
  - destruct (pending w); [|done]. cbn [app_state]. unfold send_done.
    by rewrite effects_session_ids.
  - destruct (pending w); [|done]. cbn [app_state]. unfold send_failed.
    by rewrite effects_session_ids.
  - cbn [app_state]. unfold handleSelectSession.
    destruct (isLoading (app_state w)); [done|].
    by rewrite effects_session_ids.
  - cbn [app_state]. unfold startNewChat. by rewrite effects_session_ids.
  - by destruct (Hd i).
  - cbn [app_state]. unfold selectModel. by rewrite effects_session_ids.
Qed.

(** ** A new chat in the middle of a send *)

Lemma run_fragments_blank (w : World) (chunks : list Chunk) :
  messages (app_state w) = [] ->
  messages (app_state (run w (Fragment <$> chunks))) = []
  /\ sessions (app_state (run w (Fragment <$> chunks))) = sessions (app_state w)
  /\ currentSessionId (app_state (run w (Fragment <$> chunks)))
     = currentSessionId (app_state w)
  /\ isLoading (app_state (run w (Fragment <$> chunks)))
     = isLoading (app_state w)
  /\ pending (run w (Fragment <$> chunks)) = pending w.
Proof.
  unfold run. revert w. induction chunks as [|c chunks IH]; intros w Hw;
    [done|].
  cbn [fmap list_fmap fold_left].
  assert (messages (app_state (step w (Fragment c))) = []
          /\ sessions (app_state (step w (Fragment c))) = sessions (app_state w)
          /\ currentSessionId (app_state (step w (Fragment c)))
             = currentSessionId (app_state w)
          /\ isLoading (app_state (step w (Fragment c)))
             = isLoading (app_state w)
          /\ pending (step w (Fragment c)) = pending w) as (H1 & H2 & H3 & H4 & H5).
  { cbn [step]. destruct (pending w) as [i|] eqn:Hp; [|by rewrite Hp].
    cbn [app_state pending]. unfold send_chunk.
    rewrite effects_messages, effects_currentSessionId, effects_isLoading.
    cbn [messages set_messages currentSessionId isLoading].
    rewrite Hw. split_and!; try done.
    by rewrite effects_blank. }
  destruct (IH _ H1) as (I1 & I2 & I3 & I4 & I5).
  split_and!; congruence.
Qed.

(** X19. A new chat started while a send is in flight cuts the reply off:
    the fragments that still arrive change neither the message list, which
    stays empty, nor the stored sessions, the send stays in flight until
    the stream ends, and the end of the stream only clears the flag; the
    session that was active keeps its messages as they were at the new
    chat. *)
Theorem new_chat_cuts_the_reply_off
    (w : World) (i : jsstring) (chunks : list Chunk) :
  pending w = Some i ->
  let w1 := run w (NewChat :: (Fragment <$> chunks)) in
  let w2 := step w1 StreamExhausted in
  messages (app_state w1) = []
  /\ currentSessionId (app_state w1) = None
  /\ sessions (app_state w1) = sessions (app_state w)
  /\ isLoading (app_state w1) = isLoading (app_state w)
  /\ messages (app_state w2) = []
  /\ sessions (app_state w2) = sessions (app_state w)
  /\ isLoading (app_state w2) = false
  /\ pending w2 = None.
Proof.
  intros Hp. cbn zeta.
  change (run w (NewChat :: (Fragment <$> chunks)))
    with (run (step w NewChat) (Fragment <$> chunks)).
  assert (messages (app_state (step w NewChat)) = []) as Hm
    by apply startNewChat_messages.
  assert (sessions (app_state (step w NewChat)) = sessions (app_state w))
    as Hs by apply startNewChat_sessions_blank.
  assert (currentSessionId (app_state (step w NewChat)) = None) as Hc
    by apply startNewChat_currentSessionId.
  assert (isLoading (app_state (step w NewChat)) = isLoading (app_state w))
    as Hl by apply startNewChat_isLoading.
  assert (pending (step w NewChat) = Some i) as Hp0 by done.
  generalize dependent (step w NewChat). intros w0 Hm Hs Hc Hl Hp0.
  destruct (run_fragments_blank w0 chunks Hm) as (H1 & H2 & H3 & H4 & H5).
  rewrite Hs in H2. rewrite Hc in H3. rewrite Hl in H4. rewrite Hp0 in H5.
  generalize dependent (run w0 (Fragment <$> chunks)).
  intros w1 H1 H2 H3 H4 H5.
  split_and!; try done; cbn [step]; rewrite H5; cbn [app_state pending];
    unfold send_done.
  - rewrite effects_messages. cbn [messages set_messages set_isLoading].
    by rewrite H1.
  - rewrite effects_blank; [done|].
    cbn [messages set_messages set_isLoading]. by rewrite H1.
  - by rewrite effects_isLoading.
  - done.
Qed.

(** ** What a send does and does not do *)

Lemma trimStart_blank (s : jsstring) :
  Forall (fun c => is_white_space c = true) s -> trimStart s = [].
Proof. induction 1 as [|c s Hc _ IH]; simpl; [done|]. by rewrite Hc. Qed.

(** X20. A text of white space alone, the empty one included, sent without
    attachment does nothing at all, whatever the stream would have been. *)
Theorem blank_send_is_a_no_op
    (clk : SendClock) (content0 : jsstring) (chunks : list Chunk)
    (ending : StreamEnd) (st : AppState) :
  Forall (fun c => is_white_space c = true) content0 ->
  handleSendMessage clk content0 [] chunks ending st = st.
Proof.
  intros Hblank. unfold handleSendMessage, send_begin, send_rejected, trim.
  by rewrite (trimStart_blank _ Hblank).
Qed.

Lemma Number_toString_truthy (n : Z) : truthy (Number_toString n) = true.
Proof.
  unfold Number_toString.
  destruct (NilZero.string_of_int (Z.to_int n)) as [|a s] eqn:H; [|done].
  destruct n as [|p|p]; simpl in H; try discriminate.
  unfold NilZero.string_of_uint in H.
  pose proof (DecimalPos.Unsigned.to_uint_nonnil p) as Hn.
  destruct (Pos.to_uint p); try done; discriminate.
Qed.

Lemma sync_session_sentinel_title sid msgs (s : ChatSession) j m :
  session_id s = sid ->
  title s = sentinel_title ->
  list_find (fun x : Message => role x = User) msgs = Some (j, m) ->
  title (sync_session sid msgs s)
  = take 30 (content m)
    ++ (if (30 <? length (content m))%nat then str "..." else []).
Proof.
  intros Hid Ht Hfind. unfold sync_session.
  rewrite decide_True by done. cbn [title].
  rewrite bool_decide_eq_true_2 by done.
  assert ((0 <? length msgs)%nat = true) as ->.
  { apply Nat.ltb_lt. apply list_find_Some in Hfind as (Hj & _).
    apply lookup_lt_Some in Hj. lia. }
  by rewrite Hfind.
Qed.

(** X21. The first send of a blank chat puts one new session in front of
    the store and makes it the active one: its identifier and creation
    instant are the readings of the clock, it holds the user message and
    the placeholder, and its title is the trimmed text cut to 30 code units,
    with ["..."] after it when the text is longer. *)
Theorem first_send_creates_the_session
    (clk : SendClock) (content0 : jsstring) (atts : list jsstring)
    (st : AppState) :
  send_rejected content0 atts st = false ->
  active_session st = None ->
  messages st = [] ->
  exists (st1 : AppState) (created : ChatSession),
    send_begin clk content0 atts st = (st1, Some (modelMsgId clk))
    /\ sessions st1 !! 0%nat = Some created
    /\ session_id <$> sessions st1
       = Number_toString (now_session_id clk) :: (session_id <$> sessions st)
    /\ currentSessionId st1 = Some (Number_toString (now_session_id clk))
    /\ session_id created = Number_toString (now_session_id clk)
    /\ createdAt created = now_createdAt clk
    /\ session_messages created = [userMsg clk content0 atts; modelMsg clk]
    /\ title created
       = take 30 (trim content0)
         ++ (if decide (30 < length (trim content0))%nat
             then str "..." else []).
Proof.
  intros Hguard Hactive Hblank.
  unfold send_begin. rewrite Hguard, Hactive.
  cbn [chatInstanceRef set_chatInstanceRef].
  set (newSession := {| session_id := Number_toString (now_session_id clk);
                        title := sentinel_title;
                        session_messages := [];
                        createdAt := now_createdAt clk |} : ChatSession).
  set (msgs := [userMsg clk content0 atts; modelMsg clk]).
  assert (exists chat, (match chatInstanceRef st with
                        | Some chat => Some chat
                        | None => Some (getGeminiChat (selectedModelId st) None)
                        end) = Some chat) as [chat ->]
    by (destruct (chatInstanceRef st); by eexists).
  eexists. exists (sync_session (Number_toString (now_session_id clk)) msgs
                     newSession).
  split; [reflexivity|].
  rewrite effects_session_ids, effects_currentSessionId, effects_sessions,
    sync_effect_sessions.
  unfold active_session.
  cbn [currentSessionId set_messages set_isLoading set_chatInstanceRef
       set_currentSessionId set_sessions sessions messages].
  rewrite Number_toString_truthy, Hblank.
  cbn [app length Nat.ltb Nat.leb]. fold msgs.
  split_and!; try done.
  - apply sync_session_id.
  - apply sync_session_createdAt.
  - by apply sync_session_messages.
  - rewrite (sync_session_sentinel_title _ msgs newSession 0
               (userMsg clk content0 atts)) by done.
    cbn [userMsg content].
    destruct (decide (30 < length (trim content0))%nat) as [Hl|Hl].
    + apply Nat.ltb_lt in Hl. by rewrite Hl.
    + apply Nat.ltb_nlt in Hl. by rewrite Hl.
Qed.

(** X22. A send in an active session adds no session: the identifiers of
    the store stay as they are, and so does the active session. *)
Theorem send_in_active_session_adds_none
    (clk : SendClock) (content0 : jsstring) (atts : list jsstring)
    (st : AppState) (sid : jsstring) :
  active_session st = Some sid ->
  let st1 := fst (send_begin clk content0 atts st) in
  session_id <$> sessions st1 = session_id <$> sessions st
  /\ currentSessionId st1 = currentSessionId st.
Proof.
  intros Hactive. cbn zeta. unfold send_begin. rewrite Hactive.
  destruct (send_rejected content0 atts st); [done|].
  destruct (chatInstanceRef st); [|done]. cbn [fst].
  by rewrite effects_session_ids, effects_currentSessionId.
Qed.

(** ** Merging, in general *)

(** X23. A fragment changes at most the in-flight message: the list keeps
    its length, a message with another identifier is left as it is, and any
    message keeps its identifier, role, timestamp, flags and attachments,
    its content only growing at the end. *)
Theorem merge_chunk_frame
    (modelMsgId0 : jsstring) (c : Chunk) (prev : list Message)
    (j : nat) (m : Message) :
  prev !! j = Some m ->
  length (merge_chunk modelMsgId0 c prev) = length prev
  /\ exists m' : Message,
       merge_chunk modelMsgId0 c prev !! j = Some m'
       /\ (msg_id m <> modelMsgId0 -> m' = m)
       /\ msg_id m' = msg_id m /\ role m' = role m
       /\ timestamp m' = timestamp m
       /\ isStreaming m' = isStreaming m /\ isError m' = isError m
       /\ attachments m' = attachments m
       /\ content m `prefix_of` content m'.
Proof.
  intros Hj. unfold merge_chunk.
  destruct (list_find _ prev) as [[i x]|] eqn:Hfind.
  - rewrite length_insert. split; [done|].
    apply list_find_Some in Hfind as (Hi & Hx & _).
    destruct (decide (i = j)) as [->|Hne].
    + assert (x = m) as -> by congruence.
      exists (updatedMessage c m). split_and!.
      * apply list_lookup_insert_eq. by eapply lookup_lt_Some.
      * done.
      * apply updatedMessage_msg_id.
      * unfold updatedMessage. repeat case_match; reflexivity.
      * unfold updatedMessage. repeat case_match; reflexivity.
      * apply updatedMessage_isStreaming.
      * unfold updatedMessage. repeat case_match; reflexivity.
      * unfold updatedMessage. repeat case_match; reflexivity.
      * rewrite updatedMessage_content. by apply prefix_app_r.
    + exists m. rewrite list_lookup_insert_ne by done. split_and!; done.
  - split; [done|]. exists m. split_and!; done.
Qed.

Lemma chunkImage_truthy (c : Chunk) (img : jsstring) :
  chunkImage c = Some img -> truthy img = true.
Proof.
  unfold chunkImage. destruct (chunkParts c) as [ps|]; [|done].
  rewrite scan_parts_last. destruct (last _); [|done].
  intros [= <-]. apply truthy_data_uri.
Qed.

Lemma merged_all_snoc (chunks : list Chunk) (c : Chunk) (m : Message) :
  merged_all (chunks ++ [c]) m = updatedMessage c (merged_all chunks m).
Proof. unfold merged_all. by rewrite fold_left_app. Qed.

Lemma merged_all_fields (chunks : list Chunk) (m : Message) :
  content (merged_all chunks m) = content m ++ concat (chunkText <$> chunks)
  /\ groundingMetadata (merged_all chunks m)
     = match last (omap chunkGroundingMetadata chunks) with
       | Some g => Some g
       | None => groundingMetadata m
       end
  /\ image (merged_all chunks m)
     = match last (omap chunkImage chunks) with
       | Some img => Some img
       | None => image m
       end.
Proof.
  induction chunks as [|c chunks (IH1 & IH2 & IH3)] using rev_ind.
  - simpl. by rewrite app_nil_r.
  - rewrite merged_all_snoc, updatedMessage_content, IH1.
    rewrite fmap_app, concat_app, !omap_app. cbn [fmap list_fmap concat].
    rewrite app_nil_r, <- app_assoc. split; [done|].
    cbn [omap list_omap]. unfold updatedMessage.
    destruct (chunkGroundingMetadata c) as [g|] eqn:Hg;
      destruct (chunkImage c) as [img|] eqn:Hi;
      rewrite ?(chunkImage_truthy _ _ Hi), ?last_snoc, ?app_nil_r;
      cbn [groundingMetadata image with_image with_groundingMetadata
           with_content]; done.
Qed.

Lemma fold_merge_chunk_found (modelMsgId0 : jsstring) (chunks : list Chunk)
    (l : list Message) i m :
  list_find (fun x : Message => msg_id x = modelMsgId0) l = Some (i, m) ->
  fold_left (fun l c => merge_chunk modelMsgId0 c l) chunks l
  = <[i := merged_all chunks m]> l.
Proof.
  revert l m. induction chunks as [|c chunks IH]; intros l m Hfind.
  - simpl. symmetry. apply list_insert_id.
    by apply list_find_Some in Hfind as (? & _).
  - simpl. rewrite (merge_chunk_found _ _ _ _ _ Hfind).
    rewrite (IH _ (updatedMessage c m)).
    + by rewrite list_insert_insert_eq.
    + eapply list_find_replace; [exact Hfind|]. apply updatedMessage_msg_id.
Qed.

(** X24. After any run of fragments the in-flight message holds its content
    followed by the texts of the fragments in their order, the grounding
    metadata of the last fragment that carried some, put in place of the
    earlier one as a whole, and the image of the last fragment that carried
    one; with no such fragment the metadata and the image are the ones it
    had. *)
Theorem merge_of_a_run_of_fragments
    (modelMsgId0 : jsstring) (chunks : list Chunk) (prev : list Message)
    (i : nat) (m : Message) :
  list_find (fun x : Message => msg_id x = modelMsgId0) prev = Some (i, m) ->
  exists m' : Message,
    fold_left (fun l c => merge_chunk modelMsgId0 c l) chunks prev
    = <[i := m']> prev
    /\ content m' = content m ++ concat (chunkText <$> chunks)
    /\ groundingMetadata m'
       = match last (omap chunkGroundingMetadata chunks) with
         | Some g => Some g
         | None => groundingMetadata m
         end
    /\ image m'
       = match last (omap chunkImage chunks) with
         | Some img => Some img
         | None => image m
         end.
Proof.
  intros Hfind. exists (merged_all chunks m).
  split; [by apply fold_merge_chunk_found|]. apply merged_all_fields.
Qed.

(** ** Starting the application *)

Lemma startNewChat_localStorage st :
  sessions st = [] -> localStorage (startNewChat st) = localStorage st.
Proof.
  intros Hs. unfold startNewChat.
  rewrite effects_localStorage, effects_blank by done.
  cbn [sessions set_currentSessionId set_messages set_chatInstanceRef].
  by rewrite Hs.
Qed.

(** X25. A start of the application gives a blank chat with no send in
    flight and the stored sessions newest first: over a slot that holds
    sessions, the store holds these, rearranged; over an empty slot or one
    that cannot be read, the store is empty and the slot is left as it
    is. *)
Theorem start_of_the_application (slot : option StorageItem) :
  let st := app_state (start slot) in
  messages st = []
  /\ currentSessionId st = None
  /\ isLoading st = false
  /\ pending (start slot) = None
  /\ StronglySorted newest_first (sessions st)
  /\ match slot with
     | Some (Stored parsedSessions) =>
         Permutation (hydrate parsedSessions) (sessions st)
     | _ => sessions st = [] /\ localStorage st = slot
     end.
Proof.
  cbn zeta. cbn [start app_state pending]. unfold mount.
  rewrite startNewChat_messages, startNewChat_currentSessionId,
    startNewChat_isLoading, startNewChat_sessions_blank.
  destruct slot as [[|parsed]|]; cbn [initial_state localStorage].
  - split_and!; try done; try constructor;
      by apply startNewChat_localStorage.
  - cbn [sessions set_sessions isLoading]. split_and!; try done.
    + apply sort_newest_first_sorted.
    + apply sort_newest_first_perm.
  - split_and!; try done; try constructor;
      by apply startNewChat_localStorage.
Qed.

(** ** After a send *)

Lemma project_history_app (l1 l2 : list Message) :
  project_history (l1 ++ l2) = project_history l1 ++ project_history l2.
Proof. unfold project_history. by rewrite List.filter_app, List.map_app. Qed.

(** X26. After a send whose stream fails, the history handed to the model
    for the next send is the one of the messages before, followed by the
    user turn and by a model turn with the text merged so far; the failure
    notice is not in it. *)
Theorem history_after_a_failed_send
    (clk : SendClock) (content0 : jsstring) (atts : list jsstring)
    (st : AppState) (chunks : list Chunk) (eclk : ErrorClock) :
  send_rejected content0 atts st = false ->
  is_Some (chatInstanceRef st) \/ active_session st = None ->
  (forall x : Message, x ∈ messages st -> msg_id x <> modelMsgId clk) ->
  now_user_id clk <= now_model_id clk ->
  chat_history
    <$> chatInstanceRef
          (handleSendMessage clk content0 atts chunks (Raised eclk) st)
  = Some (project_history (messages st)
          ++ [ {| turn_role := User;
                  turn_parts := [ {| history_text := trim content0 |} ] |};
               {| turn_role := Model;
                  turn_parts :=
                    [ {| history_text := concat (chunkText <$> chunks) |} ] |} ]).
Proof.
  intros Hguard Hchat Hfresh Hclock.
  pose proof (failed_send_state clk content0 atts st Hguard Hchat Hfresh
                Hclock chunks eclk) as [Hm _]. cbn zeta in Hm.
  unfold handleSendMessage in *.
  destruct (send_begin clk content0 atts st) as [st1 [i|]] eqn:Hb.
  - unfold send_failed in *. rewrite effects_chatInstanceRef.
    rewrite effects_messages in Hm. rewrite Hm.
    cbn [fmap option_fmap option_map getGeminiChat chat_history default].
    f_equal. rewrite project_history_app. f_equal.
    unfold project_history. cbn [List.filter].
    rewrite merged_all_isError.
    cbn [isError userMsg modelMsg errorMsg flag negb List.map role content].
    rewrite merged_all_role.
    destruct (merged_all_fields chunks (modelMsg clk)) as (-> & _).
    done.
  - destruct (send_begin_in_flight clk content0 atts st Hguard Hchat)
      as (st1' & Hb' & _). congruence.
Qed.

(** X27. How the reply of a send is rendered: when the stream is exhausted
    the reply has the copy button and no cursor; when the stream fails the
    reply merged so far keeps the cursor and never gets the copy button,
    and the failure notice after it has neither. *)
Theorem rendering_of_the_reply
    (clk : SendClock) (content0 : jsstring) (atts : list jsstring)
    (st : AppState) (chunks : list Chunk) (eclk : ErrorClock) :
  send_rejected content0 atts st = false ->
  is_Some (chatInstanceRef st) \/ active_session st = None ->
  (forall x : Message, x ∈ messages st -> msg_id x <> modelMsgId clk) ->
  now_user_id clk <= now_model_id clk ->
  (exists reply : Message,
      messages (handleSendMessage clk content0 atts chunks Exhausted st)
      = messages st ++ [userMsg clk content0 atts; reply]
      /\ copyButtonShown reply = true /\ cursorShown reply = false)
  /\ (exists reply notice : Message,
        messages (handleSendMessage clk content0 atts chunks (Raised eclk) st)
        = messages st ++ [userMsg clk content0 atts; reply; notice]
        /\ copyButtonShown reply = false /\ cursorShown reply = true
        /\ copyButtonShown notice = false /\ cursorShown notice = false).
Proof.
  intros Hguard Hchat Hfresh Hclock. split.
  - eexists. split; [by apply completed_send_messages|].
    unfold copyButtonShown, cursorShown.
    cbn [role isStreaming isError with_isStreaming flag].
    rewrite merged_all_role, merged_all_isError. done.
  - pose proof (failed_send_state clk content0 atts st Hguard Hchat Hfresh
                  Hclock chunks eclk) as [Hm _]. cbn zeta in Hm.
    do 2 eexists. split; [exact Hm|].
    unfold copyButtonShown, cursorShown.
    rewrite merged_all_role, merged_all_isStreaming. done.
Qed.

(** ** The further theorems at work *)

Lemma data_uri_round_trip_witness :
  match_data_uri (str "data:image/png;base64,iVBORw0KGgo=")
  = Some (str "image/png", str "iVBORw0KGgo=").
Proof.
  apply (proj2 (data_uri_round_trip
                  (str "data:image/png;base64,iVBORw0KGgo=")
                  (str "image/png") (str "iVBORw0KGgo="))).
  split_and!.
  - vm_compute; reflexivity.
  - discriminate.
  - compute_done.
  - discriminate.
  - repeat constructor.
Defined.




Lemma payload_skips_malformed_witness :
  messagePayload (str "Hi") [data_uri png_payload; str "blob:1234"]
  = messagePayload (str "Hi") [data_uri png_payload]
  /\ messagePayload (str "  ") [str "blob:1234"; str "data:;base64,AAAA"]
     = MessageParts [].
Proof.
  destruct (payload_skips_malformed (str "Hi") [data_uri png_payload] []
              [str "data:;base64,AAAA"] (str "blob:1234"))
    as [H1 _]; [vm_compute; reflexivity|repeat constructor|].
  destruct (payload_skips_malformed (str "  ") [] []
              [str "data:;base64,AAAA"] (str "blob:1234"))
    as [_ H2]; [vm_compute; reflexivity|repeat constructor|].
  split; [apply H1; discriminate|apply H2; vm_compute; reflexivity].
Defined.

Lemma uniqueSources_witness :
  NoDup (uri <$> uniqueSources grounded_message)
  /\ source_b ∈ uniqueSources grounded_message.
Proof.
  destruct (uniqueSources_first_of_each_uri grounded_message)
    as (_ & Hnodup & _ & Hfirst).
  split; [exact Hnodup|].
  apply (Hfirst 2%nat source_b); [reflexivity|].
  intros [|[|j]] w' Hj Hw'; [..|lia];
    vm_compute in Hw'; injection Hw' as <-; discriminate.
Defined.

Lemma more_sources_button_witness :
  moreSourcesButton false [source_a; source_b; source_a; source_b; source_a]
  = Some 2%nat
  /\ (length (shownSources false
                [source_a; source_b; source_a; source_b; source_a]) + 2
      = 5)%nat.
Proof.
  split; [reflexivity|].
  apply (proj1 (proj2 (more_sources_button_counts_hidden false
                  [source_a; source_b; source_a; source_b; source_a]))).
  reflexivity.
Defined.

Lemma removeAttachment_witness :
  S (length (ChatInput.attachments (ChatInput.removeAttachment 0 typed_input)))
  = length (ChatInput.attachments typed_input)
  /\ ChatInput.removeAttachment 1 typed_input = typed_input.
Proof.
  destruct (removeAttachment_removes_one 0 typed_input) as (_ & _ & H0 & _).
  destruct (removeAttachment_removes_one 1 typed_input) as (_ & _ & _ & H1).
  split; [apply H0|apply H1]; vm_compute; lia.
Defined.

Lemma handleSubmit_witness :
  exists st1,
    send_begin (clock_at 1000) (str " Hi ") [data_uri png_payload]
               (app_state (start None))
    = (st1, Some (modelMsgId (clock_at 1000)))
    /\ messages st1
       = messages (app_state (start None))
         ++ [userMsg (clock_at 1000) (str " Hi ") [data_uri png_payload];
             modelMsg (clock_at 1000)].
Proof.
  destruct (handleSubmit_agrees_with_handleSendMessage typed_input
              (app_state (start None)) (clock_at 1000)) as [H _].
  destruct (H {| ChatInput.content := []; ChatInput.attachments := [] |}
              (str " Hi ") [data_uri png_payload]) as [_ Hs].
  - vm_compute; reflexivity.
  - left. eexists. vm_compute; reflexivity.
  - exact Hs.
Defined.

Lemma handleFileSelect_witness :
  ChatInput.attachments
    (ChatInput.handleFileSelect [png_file; unreadable_file; jpeg_file]
                                typed_input)
  = ChatInput.attachments
      (ChatInput.handleFileSelect [png_file; jpeg_file] typed_input).
Proof.
  apply (handleFileSelect_appends_readable_images [] [png_file] [jpeg_file]
           unreadable_file typed_input).
  right. reflexivity.
Defined.

Lemma effects_keep_the_store_witness :
  exists s' : ChatSession,
    sessions (effects untitled_state) !! 0%nat = Some s'
    /\ session_messages s' = messages untitled_state.
Proof.
  destruct (effects_keep_the_store untitled_state 0 (session_at 1000))
    as (_ & _ & s' & Hs & _ & Hm); [vm_compute; reflexivity|].
  exists s'. split; [exact Hs|].
  apply Hm; [vm_compute; reflexivity|discriminate].
Defined.

Lemma title_is_set_once_witness :
  exists s' : ChatSession,
    sessions (effects (app_state answered_world)) !! 0%nat = Some s'
    /\ title s' = str "Hi".
Proof.
  destruct (title_is_set_once (app_state answered_world) 0
              {| session_id := Number_toString 1000; title := str "Hi";
                 session_messages := messages (app_state answered_world);
                 createdAt := 1000 |})
    as (s' & Hs & Ht & _); [vm_compute; reflexivity|].
  exists s'. split; [exact Hs|]. apply Ht. discriminate.
Defined.

Lemma delete_active_session_witness :
  messages (handleDeleteSession (Number_toString 1000)
                                (app_state answered_world)) = []
  /\ currentSessionId (handleDeleteSession (Number_toString 1000)
                                           (app_state answered_world)) = None.
Proof.
  destruct (delete_active_session (Number_toString 1000)
              (app_state answered_world)) as (H1 & H2 & _);
    [vm_compute; reflexivity|].
  split; [exact H1|exact H2].
Defined.

Lemma delete_other_session_witness :
  messages (handleDeleteSession (Number_toString 7) (app_state answered_world))
  = messages (app_state answered_world).
Proof.
  apply (delete_other_session (Number_toString 7) (app_state answered_world)).
  vm_compute. discriminate.
Defined.

Lemma select_session_witness :
  messages (handleSelectSession (session_at 1000)
                                (app_state (start (Some (JSON_stringify
                                                           [session_at 1000])))))
  = session_messages (session_at 1000).
Proof.
  apply (select_session_when_idle (session_at 1000)
           (app_state (start (Some (JSON_stringify [session_at 1000])))) 0);
    vm_compute; reflexivity.
Defined.

Lemma store_is_persisted_witness :
  localStorage (app_state (run (start None) streaming_events))
  = Some (JSON_stringify
            (sessions (app_state (run (start None) streaming_events)))).
Proof.
  apply (store_is_persisted_after_every_event None streaming_events).
  vm_compute. discriminate.
Defined.

Lemma active_session_mirrors_witness :
  session_messages
    (nth 0 (sessions (app_state (run (start None) streaming_events)))
         (session_at 0))
  = messages (app_state (run (start None) streaming_events)).
Proof.
  apply (active_session_mirrors_messages None streaming_events
           (Number_toString 1000)).
  - vm_compute; reflexivity.
  - vm_compute; discriminate.
  - vm_compute. apply list_elem_of_here.
  - vm_compute; reflexivity.
Defined.

Lemma store_changes_witness :
  session_id <$> sessions (app_state (step sending_world NewChat))
  = session_id <$> sessions (app_state sending_world).
Proof.
  apply (store_changes_only_by_send_and_delete sending_world NewChat);
    discriminate.
Defined.

Lemma new_chat_witness :
  messages (app_state
              (run sending_world
                   (NewChat :: (Fragment <$> [text_fragment (str "Hel")]))))
  = [].
Proof.
  pose proof (new_chat_cuts_the_reply_off sending_world
                (modelMsgId (clock_at 1000)) [text_fragment (str "Hel")]) as H.
  cbv zeta in H. destruct H as (H & _); [vm_compute; reflexivity|exact H].
Defined.

Lemma blank_send_witness :
  handleSendMessage (clock_at 1000) (str "   ") []
    [text_fragment (str "Hel")] Exhausted (app_state (start None))
  = app_state (start None).
Proof.
  apply (blank_send_is_a_no_op (clock_at 1000) (str "   ")).
  repeat constructor.
Defined.

Lemma first_send_witness :
  exists (st1 : AppState) (created : ChatSession),
    send_begin (clock_at 1000) (str "Explain recursion in simple terms") []
               (app_state (start None))
    = (st1, Some (modelMsgId (clock_at 1000)))
    /\ sessions st1 !! 0%nat = Some created
    /\ createdAt created = 1000.
Proof.
  destruct (first_send_creates_the_session (clock_at 1000)
              (str "Explain recursion in simple terms") []
              (app_state (start None)))
    as (st1 & created & H1 & H2 & _ & _ & _ & H3 & _);
    [vm_compute; reflexivity..|].
  exists st1, created. split; [exact H1|]. split; [exact H2|exact H3].
Defined.

Lemma send_in_active_session_witness :
  session_id
    <$> sessions (fst (send_begin (clock_at 5000) (str "again") []
                                  (app_state answered_world)))
  = session_id <$> sessions (app_state answered_world).
Proof.
  apply (send_in_active_session_adds_none (clock_at 5000) (str "again") []
           (app_state answered_world) (Number_toString 1000)).
  vm_compute; reflexivity.
Defined.

Lemma merge_chunk_frame_witness :
  length (merge_chunk (modelMsgId (clock_at 1000))
                      (text_fragment (str "Hel"))
                      (messages (app_state sending_world)))
  = length (messages (app_state sending_world)).
Proof.
  apply (merge_chunk_frame (modelMsgId (clock_at 1000))
           (text_fragment (str "Hel")) (messages (app_state sending_world))
           0 (userMsg (clock_at 1000) (str "Hi") [])).
  vm_compute; reflexivity.
Defined.

Lemma merge_of_a_run_witness :
  exists m' : Message,
    fold_left (fun l c => merge_chunk (modelMsgId (clock_at 1000)) c l)
      [grounded_fragment [source_a]; text_fragment (str "Hi");
       grounded_fragment [source_b]]
      (messages (app_state sending_world))
    = <[1%nat := m']> (messages (app_state sending_world))
    /\ content m' = str "Hi"
    /\ groundingMetadata m'
       = Some {| groundingChunks := [ {| web := Some source_b |} ] |}.
Proof.
  destruct (merge_of_a_run_of_fragments (modelMsgId (clock_at 1000))
              [grounded_fragment [source_a]; text_fragment (str "Hi");
               grounded_fragment [source_b]]
              (messages (app_state sending_world)) 1 (modelMsg (clock_at 1000)))
    as (m' & H1 & H2 & H3 & _); [vm_compute; reflexivity|].
  exists m'. split; [exact H1|]. split; [exact H2|exact H3].
Defined.

Lemma history_after_a_failed_send_witness :
  chat_history
    <$> chatInstanceRef
          (handleSendMessage (clock_at 1000) (str "Hi") []
             [text_fragment (str "Hel"); text_fragment (str "lo")]
             (Raised (error_clock_at 2000)) (app_state (start None)))
  = Some [ {| turn_role := User;
              turn_parts := [ {| history_text := str "Hi" |} ] |};
           {| turn_role := Model;
              turn_parts := [ {| history_text := str "Hello" |} ] |} ].
Proof.
  apply (history_after_a_failed_send (clock_at 1000) (str "Hi") []
           (app_state (start None))
           [text_fragment (str "Hel"); text_fragment (str "lo")]
           (error_clock_at 2000)).
  - vm_compute; reflexivity.
  - left. eexists. vm_compute; reflexivity.
  - intros x Hx. vm_compute in Hx. inversion Hx.
  - discriminate.
Defined.

Lemma rendering_of_the_reply_witness :
  exists reply notice : Message,
    messages (handleSendMessage (clock_at 1000) (str "Hi") []
                [text_fragment (str "Hel")]
                (Raised (error_clock_at 2000)) (app_state (start None)))
    = messages (app_state (start None))
      ++ [userMsg (clock_at 1000) (str "Hi") []; reply; notice]
    /\ copyButtonShown reply = false /\ cursorShown reply = true.
Proof.
  destruct (rendering_of_the_reply (clock_at 1000) (str "Hi") []
              (app_state (start None)) [text_fragment (str "Hel")]
              (error_clock_at 2000))
    as (_ & reply & notice & H1 & H2 & H3 & _).
  - vm_compute; reflexivity.
  - left. eexists. vm_compute; reflexivity.
  - intros x Hx. vm_compute in Hx. inversion Hx.
  - discriminate.
  - exists reply, notice. split; [exact H1|]. split; [exact H2|exact H3].
Defined.

Lemma send_rejected_while_pending_witness :
  step (run (start None) streaming_events)
       (Send (clock_at 5000) (str "again") [])
  = run (start None) streaming_events.
Proof.
  apply (send_rejected_while_pending streaming_events None).
  eexists. vm_compute; reflexivity.
Defined.

Lemma streaming_count_after_send_witness :
  streaming_count
    (messages (handleSendMessage (clock_at 1000) (str "Hi") []
                 [text_fragment (str "Hel")]
                 (Raised (error_clock_at 2000)) (app_state (start None))))
  = S (streaming_count (messages (app_state (start None)))).
Proof.
  apply (streaming_count_after_send (clock_at 1000) (str "Hi") []
           (app_state (start None)) [text_fragment (str "Hel")]
           (error_clock_at 2000)).
  - vm_compute; reflexivity.
  - left. eexists. vm_compute; reflexivity.
  - intros x Hx. vm_compute in Hx. inversion Hx.
  - discriminate.
Defined.
